(** * VESC serial interface: receive-side framing and connection lifecycle

    A shallow embedding of [vesc_driver/src/vesc_interface.cpp]:

    - [VescInterface::Impl::rxThread]: the accumulation buffer, the scan for
      start-of-frame bytes, the dispatch of decoded packets and of warnings,
      the erase of the scanned prefix and the read that follows;
    - [VescInterface::connect], [VescInterface::isConnected] and
      [VescInterface::send]: the lifecycle calls, with the exceptions they
      throw.

    The two callbacks ([packet_handler_], [error_handler_]) are the only
    observable effect of the reader, so a run is described by the ordered
    list of callback invocations it makes.  The packet factory, the frame
    constants and the serial port belong to other files and to Boost.Asio:
    they are parameters of the development. *)

From Stdlib Require Import List ZArith NArith Bool String Ascii Lia.
From Stdlib Require Import Strings.Byte DecimalString.
Import ListNotations.

Local Open Scope string_scope.
Local Open Scope list_scope.
Local Open Scope Z_scope.

(** ** Buffers, iterators and printed numbers *)

(** [typedef std::vector<uint8_t> Buffer]. *)
Definition Buffer : Type := list byte.

(** [std::distance(a, b)] on iterators of one buffer, held as offsets from
    [buffer.begin()]; the result is a signed [ptrdiff_t]. *)
Definition distance (a b : nat) : Z := Z.of_nat b - Z.of_nat a.

(** [ss << n] for an integer [n]: its decimal digits, with a sign when
    negative. *)
Definition dec (n : Z) : string := NilZero.string_of_int (Z.to_int n).

(** [std::endl]. *)
Definition endl : string := String "010"%char EmptyString.

(** ** What the callbacks receive *)

Section Events.

Variable Packet : Type.

(** One invocation of [packet_handler_] or of [error_handler_]. *)
Inductive Event : Type :=
| PacketEvent (packet : Packet)
| ErrorEvent (message : string).

(** The packets handed to [packet_handler_], in call order. *)
Fixpoint packets_of (tr : list Event) : list Packet :=
  match tr with
  | [] => []
  | PacketEvent p :: tr' => p :: packets_of tr'
  | ErrorEvent _ :: tr' => packets_of tr'
  end.

(** The messages handed to [error_handler_], in call order. *)
Fixpoint errors_of (tr : list Event) : list string :=
  match tr with
  | [] => []
  | PacketEvent _ :: tr' => errors_of tr'
  | ErrorEvent m :: tr' => m :: errors_of tr'
  end.

End Events.

Arguments PacketEvent {Packet} packet.
Arguments ErrorEvent {Packet} message.
Arguments packets_of {Packet} tr.
Arguments errors_of {Packet} tr.

(** ** Outcomes of a loop that the C++ does not guard *)

(** The scan loop trusts the factory.  A packet whose frame is longer than
    the window moves [iter] past [buffer.end()], which is undefined
    behaviour: [Undefined].  A packet with an empty frame leaves [iter]
    where it was, so the number of turns of the loop is no longer bounded
    by the size of the buffer; the scan is followed for one turn per byte
    and one more, and [OutOfFuel] says that the loop had not ended by
    then, not what it does afterwards. *)
Inductive Outcome (A : Type) : Type :=
| Returned (a : A)
| Undefined
| OutOfFuel.

Arguments Returned {A} a.
Arguments Undefined {A}.
Arguments OutOfFuel {A}.

(** The messages of [rxThread]. *)
Definition msg_leading (n : Z) : string :=
  ("Out-of-sync with VESC, unknown data leading valid frame. Discarding "
     ++ dec n ++ " bytes.")%string.

Definition msg_discard (n : Z) : string :=
  ("Out-of-sync with VESC, discarding " ++ dec n ++ " bytes.")%string.

Definition msg_timeout : string :=
  "Possibly out-of-sync with VESC, read timout in the middle of a frame.".

(** [boost::system::error_code], as far as [rxThread] prints it. *)
Record error_code : Type := {
  ec_value : Z;
  ec_failed : bool;
  ec_category_name : string
}.

Definition msg_serial (ec : error_code) : string :=
  ("Serial port comunication error " ++ endl
     ++ "failed " ++ (if ec_failed ec then "1" else "0") ++ endl
     ++ dec (ec_value ec) ++ endl
     ++ ec_category_name ec ++ endl
     ++ "try to read the bytes received " ++ endl)%string.

(** What one [boost::asio::read] left behind: the bytes it transferred into
    [bufferRx] (their number is [bytes_read]) and the error code. *)
Record ReadResult : Type := {
  rr_bytes : Buffer;
  rr_ec : error_code
}.

Definition no_error : error_code :=
  {| ec_value := 0; ec_failed := false; ec_category_name := "system" |}.

(** ** The reader *)

(** What the packet files give this one: the packet type with
    [packet->frame()], the constants [VescFrame::VESC_MIN_FRAME_SIZE] (an
    [int]), [VESC_SOF_VAL_SMALL_FRAME] and [VESC_SOF_VAL_LARGE_FRAME] (both
    [unsigned int]), and
    [VescPacketFactory::createPacket(begin, end, &bytes_needed, &error)].
    For the factory, the window [[begin, end)] and the value [bytes_needed]
    holds on entry go in; the packet pointer (null as [None]), the value of
    [bytes_needed] on return and the text left in [error] come out.  [error]
    is a fresh empty string at every call. *)
Class Codec : Type := {
  Packet : Type;
  frame : Packet -> Buffer;
  VESC_MIN_FRAME_SIZE : Z;
  VESC_SOF_VAL_SMALL_FRAME : N;
  VESC_SOF_VAL_LARGE_FRAME : N;
  createPacket : Buffer -> Z -> option Packet * Z * string
}.

(** The locals of one scan: the two iterators and [bytes_needed]. *)
Record ScanState : Type := {
  iter : nat;
  iter_begin : nat;
  bytes_needed : Z
}.

(** How one turn of the inner [while] ends: at its closing brace or a
    [continue], at the [break], or in a read through an iterator that is
    not inside the buffer. *)
Inductive Step : Type :=
| Continue (st : ScanState)
| Break (st : ScanState)
| PastEnd.

(** What a pass over the buffer leaves for the rest of the iteration. *)
Record PassResult : Type := {
  final : ScanState;
  buffer_after : Buffer;
  needed_after : Z
}.

Section FrameReader.

Context {codec : Codec}.

Local Abbreviation Ev := (Event Packet).

(** [VESC_SOF_VAL_SMALL_FRAME == *iter || VESC_SOF_VAL_LARGE_FRAME == *iter] *)
Definition is_sof (b : byte) : bool :=
  N.eqb VESC_SOF_VAL_SMALL_FRAME (Byte.to_N b)
  || N.eqb VESC_SOF_VAL_LARGE_FRAME (Byte.to_N b).

(** The warning of the success branch, said only when bytes were skipped. *)
Definition leading_warning (n : Z) : list Ev :=
  if 0 <? n then [ErrorEvent (msg_leading n)] else [].

(** The warning after the scan, said only when bytes are discarded. *)
Definition discard_warning (n : Z) : list Ev :=
  if 0 <? n then [ErrorEvent (msg_discard n)] else [].

(** The body of the inner [while (iter != buffer.end())], entered with
    [iter] different from [buffer.end()]. *)
Definition scan_step (buffer : Buffer) (st : ScanState) : list Ev * Step :=
  match nth_error buffer (iter st) with
  | None => ([], PastEnd)
  | Some b =>
      if is_sof b then
        match createPacket (skipn (iter st) buffer) (bytes_needed st) with
        | (Some packet, bn, _) =>
            let iter' := (iter st + List.length (frame packet))%nat in
            (leading_warning (distance (iter_begin st) (iter st))
               ++ [PacketEvent packet],
             Continue {| iter := iter'; iter_begin := iter';
                         bytes_needed := bn |})
        | (None, bn, error) =>
            if 0 <? bn then
              ([], Break {| iter := iter st; iter_begin := iter_begin st;
                            bytes_needed := bn |})
            else
              ([ErrorEvent error],
               Continue {| iter := S (iter st); iter_begin := iter_begin st;
                           bytes_needed := bn |})
        end
      else
        ([], Continue {| iter := S (iter st); iter_begin := iter_begin st;
                         bytes_needed := bytes_needed st |})
  end.

(** Callbacks made before a result come first in the trace. *)
Definition emit {A : Type} (ev : list Ev) (o : Outcome (list Ev * A))
  : Outcome (list Ev * A) :=
  match o with
  | Returned (ev', a) => Returned (ev ++ ev', a)
  | Undefined => Undefined
  | OutOfFuel => OutOfFuel
  end.

(** The inner [while]: the callbacks it makes and the locals it leaves. *)
Fixpoint scan_loop (fuel : nat) (buffer : Buffer) (st : ScanState)
  : Outcome (list Ev * ScanState) :=
  match fuel with
  | O => OutOfFuel
  | S fuel' =>
      if Nat.eqb (iter st) (List.length buffer) then Returned ([], st)
      else
        match scan_step buffer st with
        | (ev, Continue st') => emit ev (scan_loop fuel' buffer st')
        | (ev, Break st') => Returned (ev, st')
        | (_, PastEnd) => Undefined
        end
  end.

(** Both iterators start at [buffer.begin()]; [bytes_needed] was set to the
    minimum frame size at the top of the outer loop. *)
Definition scan_start : ScanState :=
  {| iter := 0; iter_begin := 0; bytes_needed := VESC_MIN_FRAME_SIZE |}.

(** The inner loop from its start, followed for one turn per byte of the
    buffer and one for the exit test.  That is every turn there is when the
    factory returns no packet with an empty frame, since every other turn
    that goes on moves [iter] forward; after an empty frame the loop may
    take more turns than are followed here. *)
Definition scan_buffer (buffer : Buffer) : Outcome (list Ev * ScanState) :=
  scan_loop (S (List.length buffer)) buffer scan_start.

(** The statements after the inner loop: the reset of [bytes_needed] at the
    end of the buffer, the discard warning and
    [buffer.erase(buffer.begin(), iter)]. *)
Definition finish_pass (buffer : Buffer) (st : ScanState)
  : list Ev * PassResult :=
  (discard_warning (distance (iter_begin st) (iter st)),
   {| final := st;
      buffer_after := skipn (iter st) buffer;
      needed_after := if Nat.eqb (iter st) (List.length buffer)
                      then VESC_MIN_FRAME_SIZE else bytes_needed st |}).

(** The block guarded by [if (!buffer.empty())]. *)
Definition scan_pass (buffer : Buffer) : Outcome (list Ev * PassResult) :=
  match scan_buffer buffer with
  | Returned (ev, st) =>
      let '(ev', r) := finish_pass buffer st in Returned (ev ++ ev', r)
  | Undefined => Undefined
  | OutOfFuel => OutOfFuel
  end.

(** The first half of an iteration of the outer loop: an empty buffer is
    left alone and asks for a minimum frame. *)
Definition scan_phase (buffer : Buffer) : Outcome (list Ev * (Buffer * Z)) :=
  match buffer with
  | [] => Returned ([], ([], VESC_MIN_FRAME_SIZE))
  | _ :: _ =>
      match scan_pass buffer with
      | Returned (ev, r) => Returned (ev, (buffer_after r, needed_after r))
      | Undefined => Undefined
      | OutOfFuel => OutOfFuel
      end
  end.

(** [int bytes_to_read = std::min(bytes_needed, 4096)]. *)
Definition bytes_to_read (bytes_needed : Z) : Z := Z.min bytes_needed 4096.

(** The report made when [ec.value() > 0]. *)
Definition serial_error_report (ec : error_code) : list Ev :=
  if 0 <? ec_value ec then [ErrorEvent (msg_serial ec)] else [].

(** The report made when nothing came although bytes were asked for and
    the buffer is not empty. *)
Definition timeout_report (bytes_needed : Z) (rr : ReadResult)
  (buffer : Buffer) : list Ev :=
  if (0 <? bytes_needed)
     && Nat.eqb 0 (List.length (rr_bytes rr))
     && negb (Nat.eqb (List.length buffer) 0)
  then [ErrorEvent msg_timeout] else [].

(** The second half of an iteration: the read of [bytes_to_read] bytes
    (its result is what [read] answers to that request), the copy of what
    was read to the back of the buffer, and the two reports. *)
Definition read_phase (buffer : Buffer) (bytes_needed : Z)
  (read : Z -> ReadResult) : list Ev * Buffer :=
  let rr := read (bytes_to_read bytes_needed) in
  let buffer' := buffer ++ rr_bytes rr in
  (serial_error_report (rr_ec rr) ++ timeout_report bytes_needed rr buffer',
   buffer').

(** One iteration of [while (rx_thread_run_)]: the callbacks it makes and
    the buffer it leaves for the next one. *)
Definition rx_iteration (buffer : Buffer) (read : Z -> ReadResult)
  : Outcome (list Ev * Buffer) :=
  match scan_phase buffer with
  | Returned (ev, (buffer1, bn)) =>
      let '(ev', buffer2) := read_phase buffer1 bn read in
      Returned (ev ++ ev', buffer2)
  | Undefined => Undefined
  | OutOfFuel => OutOfFuel
  end.

(** The outer loop, for as many iterations as [rx_thread_run_] stays set:
    one answer of the serial port per iteration. *)
Fixpoint rxThread (buffer : Buffer) (reads : list (Z -> ReadResult))
  : Outcome (list Ev * Buffer) :=
  match reads with
  | [] => Returned ([], buffer)
  | read :: reads' =>
      match rx_iteration buffer read with
      | Returned (ev, buffer') => emit ev (rxThread buffer' reads')
      | Undefined => Undefined
      | OutOfFuel => OutOfFuel
      end
  end.

(** A serial line that holds [line] and answers every read with as many of
    its next bytes as were asked for, without error. *)
Definition line_read (line : Buffer) (n : Z) : ReadResult :=
  {| rr_bytes := firstn (Z.to_nat n) line; rr_ec := no_error |}.

(** The outer loop fed from such a line for [n] iterations: the callbacks,
    the buffer and what is left on the line. *)
Fixpoint rxThread_on_line (n : nat) (buffer line : Buffer)
  : Outcome (list Ev * (Buffer * Buffer)) :=
  match n with
  | O => Returned ([], (buffer, line))
  | S n' =>
      match scan_phase buffer with
      | Returned (ev, (buffer1, bn)) =>
          let '(ev', buffer2) := read_phase buffer1 bn (line_read line) in
          emit (ev ++ ev')
               (rxThread_on_line n' buffer2
                  (skipn (Z.to_nat (bytes_to_read bn)) line))
      | Undefined => Undefined
      | OutOfFuel => OutOfFuel
      end
  end.

(** *** The inputs the properties speak of *)

(** Modelled from the spec: the packet factory is not part of this file;
    by its contract a returned packet consumes exactly
    [packet.frame().size()] bytes of the window it was given, so its frame
    is not empty and not longer than that window. *)
Definition frames_fit : Prop :=
  forall window bn packet bn' error,
    createPacket window bn = (Some packet, bn', error) ->
    (0 < List.length (frame packet) <= List.length window)%nat.

(** The first byte of a frame is a start-of-frame value. *)
Definition starts_with_sof (f : Buffer) : bool :=
  match f with
  | [] => false
  | b :: _ => is_sof b
  end.

(** The number of start-of-frame values among the bytes of [g]. *)
Definition count_sof (g : Buffer) : nat := List.length (filter is_sof g).

(** A span [g], followed in the buffer by [rest], holds no frame when the
    factory refuses every start-of-frame byte of it for good (no packet,
    no byte asked for).  The function walks over [g] as the scan does, from
    the value [bn] of [bytes_needed], and gives the error texts of the
    refusals in order with the last value of [bytes_needed]; it gives [None]
    when some start-of-frame byte of [g] is not refused. *)
Fixpoint refused_markers (g rest : Buffer) (bn : Z)
  : option (list string * Z) :=
  match g with
  | [] => Some ([], bn)
  | b :: g' =>
      if is_sof b then
        match createPacket (g ++ rest) bn with
        | (None, bn1, error) =>
            if 0 <? bn1 then None
            else
              match refused_markers g' rest bn1 with
              | Some (errors, bn') => Some (error :: errors, bn')
              | None => None
              end
        | (Some _, _, _) => None
        end
      else refused_markers g' rest bn
  end.

End FrameReader.

(** ** The connection *)

(** What a [catch (const std::exception & e)] can receive: the driver's own
    [SerialException], built from a description, or an exception of the
    serial port library, known by its [what()] text. *)
Inductive exception : Type :=
| SerialException (description : string)
| std_exception (what : string).

(** [s.c_str()] read back as a C string, as the constructor of
    [SerialException] does: the characters before the first NUL. *)
Fixpoint c_str (s : string) : string :=
  match s with
  | EmptyString => EmptyString
  | String c s' =>
      if Ascii.eqb c "000"%char then EmptyString else String c (c_str s')
  end.

(** A call that returns or throws. *)
Inductive result (A : Type) : Type :=
| Ok (a : A)
| Throw (e : exception).

Arguments Ok {A} a.
Arguments Throw {A} e.

(** The options [connect] sets on the port. *)
Inductive flow_control_type : Type := flow_none | flow_software | flow_hardware.
Inductive parity_type : Type := parity_none | parity_odd | parity_even.
Inductive stop_bits_type : Type := stop_one | stop_onepointfive | stop_two.

Inductive SerialOption : Type :=
| baud_rate (rate : Z)
| flow_control (t : flow_control_type)
| parity (t : parity_type)
| stop_bits (t : stop_bits_type).

(** [boost::asio::serial_port], as far as the driver observes it: whether it
    is open, the options set on it since it was opened and the buffers
    handed to [write_some], oldest first. *)
Record SerialPort : Type := {
  is_open : bool;
  options : list SerialOption;
  writes : list Buffer
}.

(** What [std::unique_ptr<std::thread>] holds when it is not null: a
    thread running [rxThread], which can be joined, or the thread object
    left by a [join()]. *)
Inductive Thread : Type := RxThread | JoinedThread.

(** [SerialException::what()] as a function of the description the
    exception was built from (the class is declared in the header). *)
Class ExceptionText : Type := {
  SerialException_what : string -> string
}.

(** The device behind the port: whether opening a path throws, whether
    setting an option throws, and how many bytes a [write_some] takes or
    the exception it throws.  [Some w] and [inr w] carry the [what()] text of
    the exception. *)
Class SerialDevice : Type := {
  open_throws : string -> option string;
  set_option_throws : SerialOption -> option string;
  write_some_takes : Buffer -> nat + string
}.

Section Lifecycle.

Context {codec : Codec} {text : ExceptionText} {device : SerialDevice}.

(** [e.what()]. *)
Definition what (e : exception) : string :=
  match e with
  | SerialException description => SerialException_what description
  | std_exception w => w
  end.

(** Calls on the port: they change it, and return or throw. *)
Definition Port (A : Type) : Type := SerialPort -> result A * SerialPort.

Definition ret {A : Type} (a : A) : Port A := fun sp => (Ok a, sp).

Definition throw {A : Type} (e : exception) : Port A :=
  fun sp => (Throw e, sp).

Definition bind {A B : Type} (m : Port A) (k : A -> Port B) : Port B :=
  fun sp =>
    match m sp with
    | (Ok a, sp') => k a sp'
    | (Throw e, sp') => (Throw e, sp')
    end.

Notation "x <- m ;; k" := (bind m (fun x => k))
  (at level 61, m at next level, right associativity).
Notation "m ;; k" := (bind m (fun _ => k))
  (at level 61, right associativity).

(** [try { m } catch (const std::exception & e) { h e }] *)
Definition try_catch {A : Type} (m : Port A) (h : exception -> Port A)
  : Port A :=
  fun sp =>
    match m sp with
    | (Ok a, sp') => (Ok a, sp')
    | (Throw e, sp') => h e sp'
    end.

(** [serial_port_.open(port)]: a failed open leaves the port closed. *)
Definition open (port : string) : Port unit :=
  fun sp =>
    match open_throws port with
    | Some w => (Throw (std_exception w), sp)
    | None =>
        (Ok tt, {| is_open := true; options := []; writes := writes sp |})
    end.

(** [serial_port_.set_option(o)]: a failed call changes nothing, so the
    port stays open. *)
Definition set_option (o : SerialOption) : Port unit :=
  fun sp =>
    match set_option_throws o with
    | Some w => (Throw (std_exception w), sp)
    | None =>
        (Ok tt, {| is_open := is_open sp; options := options sp ++ [o];
                   writes := writes sp |})
    end.

(** [serial_port_.write_some(boost::asio::buffer(data))] *)
Definition write_some (data : Buffer) : Port nat :=
  fun sp =>
    let sp' := {| is_open := is_open sp; options := options sp;
                  writes := writes sp ++ [data] |} in
    match write_some_takes data with
    | inl n => (Ok n, sp')
    | inr w => (Throw (std_exception w), sp')
    end.

(** [VescInterface::Impl]: the thread pointer, the run flag and the port,
    together with the callbacks made so far through the two handlers. *)
Record Impl : Type := {
  rx_thread_ : option Thread;
  rx_thread_run_ : bool;
  serial_port_ : SerialPort;
  handled : list (Event Packet)
}.

(** [VescInterface::isConnected] *)
Definition isConnected (impl : Impl) : bool := is_open (serial_port_ impl).

(** The [try] block of [connect] with its handler.  The text is put
    together in a stream, where [port] is a [std::string], and handed to
    the exception as [ss.str().c_str()]. *)
Definition open_and_configure (port : string) : Port unit :=
  try_catch
    (open port ;;
     set_option (baud_rate 115200) ;;
     set_option (flow_control flow_none) ;;
     set_option (parity parity_none) ;;
     set_option (stop_bits stop_one))
    (fun e =>
       throw (SerialException
                (c_str ("Failed to open the serial port " ++ port
                          ++ " to the VESC. " ++ what e)%string))).

(** [VescInterface::connect] *)
Definition connect (port : string) (impl : Impl) : result unit * Impl :=
  if isConnected impl then
    (Throw (SerialException "Already connected to serial port."), impl)
  else
    match open_and_configure port (serial_port_ impl) with
    | (Throw e, sp) =>
        (Throw e,
         {| rx_thread_ := rx_thread_ impl;
            rx_thread_run_ := rx_thread_run_ impl;
            serial_port_ := sp; handled := handled impl |})
    | (Ok _, sp) =>
        (Ok tt,
         {| rx_thread_ := Some RxThread; rx_thread_run_ := true;
            serial_port_ := sp; handled := handled impl |})
    end.

(** The text of the short-write exception of [send]. *)
Definition msg_short_write (written size : nat) : string :=
  ("Wrote " ++ dec (Z.of_nat written) ++ " bytes, expected "
     ++ dec (Z.of_nat size) ++ ".")%string.

(** The prefix [send] puts before the text of whatever it caught. *)
Definition send_failure_prefix : string :=
  "Failed to open the serial port to the VESC. ".

(** The [try] block of [send] with its handler. *)
Definition write_frame (data : Buffer) : Port unit :=
  try_catch
    (written <- write_some data ;;
     if negb (Nat.eqb written (List.length data)) then
       throw (SerialException (msg_short_write written (List.length data)))
     else ret tt)
    (fun e =>
       throw (SerialException (send_failure_prefix ++ what e)%string)).

(** [VescInterface::send] *)
Definition send (packet : Packet) (impl : Impl) : result unit * Impl :=
  let '(r, sp) := write_frame (frame packet) (serial_port_ impl) in
  (r, {| rx_thread_ := rx_thread_ impl;
         rx_thread_run_ := rx_thread_run_ impl;
         serial_port_ := sp; handled := handled impl |}).

End Lifecycle.

(** ** The rest of the interface *)

(** The command packets the senders build.  Their classes belong to the
    packet files; [double] is the type of the set-points, which this file
    only hands on. *)
Class Commands {codec : Codec} : Type := {
  double : Type;
  VescPacketRequestFWVersion : Packet;
  VescPacketRequestValues : Packet;
  VescPacketSetDuty : double -> Packet;
  VescPacketSetCurrent : double -> Packet;
  VescPacketSetCurrentBrake : double -> Packet;
  VescPacketSetRPM : double -> Packet;
  VescPacketSetPos : double -> Packet;
  VescPacketSetServoPos : double -> Packet
}.

(** Whether [serial_port_.close()] throws, with the [what()] text. *)
Class ClosingDevice : Type := {
  close_throws : option string
}.

(** The [what()] text of the [std::system_error] that [join()] throws on a
    thread object that is not joinable. *)
Class ThreadLibrary : Type := {
  join_throws_what : string
}.

Section Interface.

Context {codec : Codec} {text : ExceptionText} {device : SerialDevice}
        {commands : Commands} {closing : ClosingDevice}
        {threads : ThreadLibrary}.

(** The senders: each builds its packet and hands it to [send]. *)
Definition requestFWVersion (impl : Impl) : result unit * Impl :=
  send VescPacketRequestFWVersion impl.

Definition requestState (impl : Impl) : result unit * Impl :=
  send VescPacketRequestValues impl.

Definition setDutyCycle (duty_cycle : double) (impl : Impl)
  : result unit * Impl :=
  send (VescPacketSetDuty duty_cycle) impl.

Definition setCurrent (current : double) (impl : Impl)
  : result unit * Impl :=
  send (VescPacketSetCurrent current) impl.

Definition setBrake (brake : double) (impl : Impl) : result unit * Impl :=
  send (VescPacketSetCurrentBrake brake) impl.

Definition setSpeed (speed : double) (impl : Impl) : result unit * Impl :=
  send (VescPacketSetRPM speed) impl.

Definition setPosition (position : double) (impl : Impl)
  : result unit * Impl :=
  send (VescPacketSetPos position) impl.

Definition setServo (servo : double) (impl : Impl) : result unit * Impl :=
  send (VescPacketSetServoPos servo) impl.

(** [serial_port_.close()]: the port is closed whether or not the call
    throws. *)
Definition close : Port unit :=
  fun sp =>
    let sp' := {| is_open := false; options := []; writes := writes sp |} in
    match close_throws with
    | Some w => (Throw (std_exception w), sp')
    | None => (Ok tt, sp')
    end.

(** [VescInterface::disconnect].  The run flag is cleared first; an
    exception of [requestFWVersion] leaves the function before the join
    and the close.  [rx_thread_->join()] through a null pointer is
    undefined; on a thread object that was joined before it throws, and
    the close is not reached.  On a running thread the join is taken to
    return, which it does once the reader has left its loop: [last] are
    the callbacks the reader makes until then, and the pointer holds the
    joined thread object afterwards. *)
Definition disconnect (impl : Impl) (last : list (Event Packet))
  : Outcome (result unit * Impl) :=
  if isConnected impl then
    let stopping :=
      {| rx_thread_ := rx_thread_ impl; rx_thread_run_ := false;
         serial_port_ := serial_port_ impl; handled := handled impl |} in
    match requestFWVersion stopping with
    | (Throw e, impl') => Returned (Throw e, impl')
    | (Ok _, impl') =>
        match rx_thread_ impl' with
        | None => Undefined
        | Some JoinedThread =>
            Returned (Throw (std_exception join_throws_what), impl')
        | Some RxThread =>
            let '(r, sp) := close (serial_port_ impl') in
            Returned
              (r, {| rx_thread_ := Some JoinedThread;
                     rx_thread_run_ := rx_thread_run_ impl';
                     serial_port_ := sp;
                     handled := handled impl' ++ last |})
        end
    end
  else Returned (Ok tt, impl).

(** [Impl()]: a null thread pointer and a port that is not open;
    [rx_thread_run_] has no initialiser, [run] is the value it happens to
    hold. *)
Definition new_Impl (run : bool) : Impl :=
  {| rx_thread_ := None; rx_thread_run_ := run;
     serial_port_ := {| is_open := false; options := []; writes := [] |};
     handled := [] |}.

(** The constructor [VescInterface(port, packet_handler, error_handler)]:
    the two handlers are stored (their calls are what [handled] lists) and
    the port is connected to when its name is not empty. *)
Definition VescInterface (port : string) (run : bool)
  : result unit * Impl :=
  match port with
  | EmptyString => (Ok tt, new_Impl run)
  | String _ _ => connect port (new_Impl run)
  end.

End Interface.

(** ** More inputs of the reader *)

Section ReaderInputs.

Context {codec : Codec}.

(** The bytes of the frames of the packets dispatched in a trace. *)
Definition total_frame_bytes (tr : list (Event Packet)) : nat :=
  list_sum (map (fun packet => List.length (frame packet)) (packets_of tr)).

(** A read that brings no byte and reports no error, whatever the count
    asked for. *)
Definition idle (read : Z -> ReadResult) : Prop :=
  forall n, rr_bytes (read n) = [] /\ ec_value (rr_ec (read n)) <= 0.

(** No byte of the buffer is a start-of-frame value. *)
Definition no_marker (buffer : Buffer) : bool :=
  forallb (fun b => negb (is_sof b)) buffer.

(** The factory treats [bytes_needed] as an output only: what it answers
    does not depend on the value the variable holds on entry. *)
Definition bytes_needed_is_output : Prop :=
  forall window bn1 bn2, createPacket window bn1 = createPacket window bn2.

(** The ways a scan that comes back can have begun. *)
Inductive FirstTurn (fuel : nat) (buffer : Buffer) (st : ScanState)
  (ev : list (Event Packet)) (st' : ScanState) : Prop :=
| AtEnd :
    iter st = List.length buffer -> ev = [] -> st' = st ->
    FirstTurn fuel buffer st ev st'
| Skipped (b : byte) :
    nth_error buffer (iter st) = Some b -> is_sof b = false ->
    scan_loop fuel buffer
      {| iter := S (iter st); iter_begin := iter_begin st;
         bytes_needed := bytes_needed st |} = Returned (ev, st') ->
    FirstTurn fuel buffer st ev st'
| Dispatched (b : byte) (packet : Packet) (bn : Z) (error : string)
    (ev1 : list (Event Packet)) :
    nth_error buffer (iter st) = Some b -> is_sof b = true ->
    createPacket (skipn (iter st) buffer) (bytes_needed st)
    = (Some packet, bn, error) ->
    scan_loop fuel buffer
      {| iter := iter st + List.length (frame packet);
         iter_begin := iter st + List.length (frame packet);
         bytes_needed := bn |} = Returned (ev1, st') ->
    ev = (leading_warning (distance (iter_begin st) (iter st))
            ++ [PacketEvent packet]) ++ ev1 ->
    FirstTurn fuel buffer st ev st'
| Waiting (b : byte) (bn : Z) (error : string) :
    nth_error buffer (iter st) = Some b -> is_sof b = true ->
    createPacket (skipn (iter st) buffer) (bytes_needed st)
    = (None, bn, error) ->
    0 < bn -> ev = [] ->
    st' = {| iter := iter st; iter_begin := iter_begin st;
             bytes_needed := bn |} ->
    FirstTurn fuel buffer st ev st'
| Refused (b : byte) (bn : Z) (error : string) (ev1 : list (Event Packet)) :
    nth_error buffer (iter st) = Some b -> is_sof b = true ->
    createPacket (skipn (iter st) buffer) (bytes_needed st)
    = (None, bn, error) ->
    bn <= 0 ->
    scan_loop fuel buffer
      {| iter := S (iter st); iter_begin := iter_begin st;
         bytes_needed := bn |} = Returned (ev1, st') ->
    ev = ErrorEvent error :: ev1 ->
    FirstTurn fuel buffer st ev st'.

(** *** The reader on a line *)

(** The number of bytes a read is asked for while no frame is awaited. *)
Definition chunk : nat := Z.to_nat (bytes_to_read VESC_MIN_FRAME_SIZE).

(** The sizes of the pieces in which the reader meets a span of [n] bytes
    that it reads [c] at a time: full pieces, then what is left. *)
Definition pieces (c n : nat) : list nat :=
  repeat c (Nat.div n c)
    ++ (if Nat.eqb (Nat.modulo n c) 0 then [] else [Nat.modulo n c]).

(** The discard warnings for a span [g], one per piece. *)
Definition span_warnings (g : Buffer) : list (Event Packet) :=
  map (fun n => ErrorEvent (msg_discard (Z.of_nat n)))
      (pieces chunk (List.length g)).

(** Whether the factory, given the beginning [w] of a frame whose other
    bytes are [rest], and every longer beginning short of the whole, asks
    for more bytes: a positive number, not beyond the end of the frame.
    An empty beginning is never handed to the factory. *)
Fixpoint asks_for_rest (w rest : Buffer) : bool :=
  match rest with
  | [] => true
  | x :: rest' =>
      match w with
      | [] => true
      | _ :: _ =>
          match createPacket w VESC_MIN_FRAME_SIZE with
          | (None, k, _) =>
              (0 <? k) && (k <=? Z.of_nat (List.length rest))
          | (Some _, _, _) => false
          end
      end
      && asks_for_rest (w ++ [x]) rest'
  end.

(** A frame the reader can wait for: it begins with a start-of-frame byte,
    has at least the minimum frame size, and the factory asks for the rest
    of it on every beginning. *)
Definition awaited (f : Buffer) : bool :=
  starts_with_sof f
  && (VESC_MIN_FRAME_SIZE <=? Z.of_nat (List.length f))
  && asks_for_rest [] f.

(** The bytes the reads of a run bring, in the order they arrive. *)
Fixpoint inflow (buffer : Buffer) (reads : list (Z -> ReadResult))
  : Buffer :=
  match reads with
  | [] => []
  | read :: reads' =>
      match scan_phase buffer with
      | Returned (_, (buffer1, bn)) =>
          let bytes := rr_bytes (read (bytes_to_read bn)) in
          bytes ++ inflow (buffer1 ++ bytes) reads'
      | _ => []
      end
  end.

(** Packets decoded one after the other along a stream of bytes: each was
    made by the factory at a start-of-frame byte of the stream, at offset
    [a], from the bytes of the stream that follow (as many of them, [m],
    as had arrived), and the next one at or behind the end of its frame.
    All offsets lie from [lo] on and the last frame ends at [hi] or
    before. *)
Inductive decoded_in_order (stream : Buffer)
  : nat -> list Packet -> nat -> Prop :=
| order_nil (lo hi : nat) :
    (lo <= hi)%nat -> decoded_in_order stream lo [] hi
| order_cons (lo hi a m : nat) (b : byte) (packet : Packet)
    (packets : list Packet) (bn bn' : Z) (error : string) :
    (lo <= a)%nat ->
    nth_error stream a = Some b ->
    is_sof b = true ->
    createPacket (firstn m (skipn a stream)) bn = (Some packet, bn', error) ->
    decoded_in_order stream (a + List.length (frame packet)) packets hi ->
    decoded_in_order stream lo (packet :: packets) hi.

End ReaderInputs.


(** ** A sample codec and a sample device

    Concrete values for the parameters, to run the definitions on.  The
    start-of-frame values are those of the VESC protocol; the codec is a
    small length-prefixed one, with a minimum frame of four bytes, that
    keeps to the factory's contract (a packet of known frame length, or a
    positive count of missing bytes, or an error text with a count of
    zero). *)

Module Sample.

Definition VESC_MIN_FRAME_SIZE : Z := 4.

(** Frames are [02 len payload 03] with [len] payload bytes, [len] not
    zero; a packet is known by the bytes of its frame.  Large frames are
    refused. *)
Definition createPacket (window : Buffer) (bytes_needed : Z)
  : option Buffer * Z * string :=
  let size := Z.of_nat (List.length window) in
  if size <? VESC_MIN_FRAME_SIZE then
    (None, VESC_MIN_FRAME_SIZE - size,
     "Buffer does not contain a complete frame")
  else
    match window with
    | sof :: len :: _ =>
        let total := Z.of_N (Byte.to_N len) + 3 in
        if negb (N.eqb (Byte.to_N sof) 2) then
          (None, 0, "Invalid start-of-frame character")
        else if N.eqb (Byte.to_N len) 0 then
          (None, 0, "Invalid payload length")
        else if size <? total then
          (None, total - size, "Buffer does not contain a complete frame")
        else if N.eqb (Byte.to_N (nth (Z.to_nat (total - 1)) window x00)) 3
        then (Some (firstn (Z.to_nat total) window), 0, "")
        else (None, 0, "Invalid end-of-frame character")
    | _ => (None, 0, "Invalid start-of-frame character")
    end.

Definition codec : Codec :=
  Build_Codec Buffer (fun p => p) VESC_MIN_FRAME_SIZE 2 3 createPacket.

(** [SerialException::what()] wraps the description. *)
Definition text : ExceptionText := {|
  SerialException_what := fun description =>
    ("SerialException " ++ description ++ " failed.")%string
|}.

(** A device that opens, refuses the baud rate and takes every write but
    its last byte. *)
Definition stubborn : SerialDevice := {|
  open_throws := fun _ => None;
  set_option_throws := fun o =>
    match o with
    | baud_rate _ => Some "set_option: Inappropriate ioctl for device"
    | _ => None
    end;
  write_some_takes := fun data => inl (Nat.pred (List.length data))
|}.

(** A device whose [write_some] throws. *)
Definition unplugged : SerialDevice := {|
  open_throws := fun _ => Some "open: No such file or directory";
  set_option_throws := fun _ => None;
  write_some_takes := fun _ => inr "write_some: Bad file descriptor"
|}.

(** A freshly constructed [Impl]: no thread, a closed port. *)
Definition fresh : @Impl codec :=
  {| rx_thread_ := None; rx_thread_run_ := false;
     serial_port_ := {| is_open := false; options := []; writes := [] |};
     handled := [] |}.

(** An [Impl] after a successful [connect]. *)
Definition connected : @Impl codec :=
  {| rx_thread_ := Some RxThread; rx_thread_run_ := true;
     serial_port_ :=
       {| is_open := true;
          options := [baud_rate 115200; flow_control flow_none;
                      parity parity_none; stop_bits stop_one];
          writes := [] |};
     handled := [] |}.

(** Reads that bring given bytes, or nothing, without error. *)
Definition brings (data : Buffer) (n : Z) : ReadResult :=
  {| rr_bytes := data; rr_ec := no_error |}.

(** Some bytes: two frames and two spans that hold no frame. *)
Definition frame_a : Buffer := [x02; x01; x07; x03].
Definition frame_b : Buffer := [x02; x01; x08; x03].
Definition noise : Buffer := [x09; x09; x09; x09; x09].
Definition false_start : Buffer := [x02; x01; x09; x09].

(** The command packets of the sample codec; set-points are bytes. *)
Definition request (command : byte) : Buffer := [x02; x01; command; x03].
Definition setpoint (command value : byte) : Buffer :=
  [x02; x02; command; value; x03].

Definition commands : @Commands codec :=
  @Build_Commands codec byte (request x00) (request x04)
    (setpoint x05) (setpoint x06) (setpoint x07) (setpoint x08)
    (setpoint x09) (setpoint x0c).

(** A device on which every call succeeds in full. *)
Definition obliging : SerialDevice := {|
  open_throws := fun _ => None;
  set_option_throws := fun _ => None;
  write_some_takes := fun data => inl (List.length data)
|}.

(** A device that opens and is configured but takes no byte of a write. *)
Definition mute : SerialDevice := {|
  open_throws := fun _ => None;
  set_option_throws := fun _ => None;
  write_some_takes := fun _ => inl 0%nat
|}.

(** A device that opens, refuses every option and takes writes in full. *)
Definition unconfigurable : SerialDevice := {|
  open_throws := fun _ => None;
  set_option_throws := fun _ => Some "set_option: Invalid argument";
  write_some_takes := fun data => inl (List.length data)
|}.

(** The text of a [join()] on a thread that is not joinable. *)
Definition threads : ThreadLibrary :=
  {| join_throws_what := "Invalid argument" |}.

(** A [close] that succeeds. *)
Definition closes : ClosingDevice := {| close_throws := None |}.

(** The last callback of a reader on its way out: one packet. *)
Definition farewell : list (Event (@Packet codec)) :=
  [@PacketEvent (@Packet codec) frame_a].

(** A read that brings nothing, with an error code of zero. *)
Definition nothing (n : Z) : ReadResult :=
  {| rr_bytes := []; rr_ec := no_error |}.

End Sample.

(** * Properties of the reader *)

(** ** Lists and traces *)

Lemma skipn_length_app (a b : Buffer) : skipn (List.length a) (a ++ b) = b.
Proof. induction a as [|x a IH]; simpl; auto. Qed.

Lemma nth_error_length_app (a : Buffer) (x : byte) (b : Buffer) :
  nth_error (a ++ x :: b) (List.length a) = Some x.
Proof. induction a as [|y a IH]; simpl; auto. Qed.

Lemma distance_self (a : nat) : distance a a = 0.
Proof. unfold distance; lia. Qed.

Lemma distance_app_length (a g : Buffer) :
  distance (List.length a) (List.length (a ++ g)) = Z.of_nat (List.length g).
Proof. unfold distance; rewrite length_app; lia. Qed.

Section ReaderFacts.

Context {codec : Codec}.

Local Abbreviation Ev := (Event Packet).

Lemma emit_nil {A : Type} (o : Outcome (list Ev * A)) : emit [] o = o.
Proof. destruct o as [[ev a]| |]; reflexivity. Qed.

Lemma emit_emit {A : Type} (e1 e2 : list Ev) (o : Outcome (list Ev * A)) :
  emit e1 (emit e2 o) = emit (e1 ++ e2) o.
Proof. destruct o as [[ev a]| |]; simpl; rewrite ?app_assoc; reflexivity. Qed.

Lemma emit_returned {A : Type} (e ev : list Ev) (a : A) :
  emit e (Returned (ev, a)) = Returned (e ++ ev, a).
Proof. reflexivity. Qed.

Lemma packets_of_app (t1 t2 : list Ev) :
  packets_of (t1 ++ t2) = packets_of t1 ++ packets_of t2.
Proof.
  induction t1 as [|[p|m] t1 IH]; simpl; rewrite ?IH; reflexivity.
Qed.

Lemma errors_of_app (t1 t2 : list Ev) :
  errors_of (t1 ++ t2) = errors_of t1 ++ errors_of t2.
Proof.
  induction t1 as [|[p|m] t1 IH]; simpl; rewrite ?IH; reflexivity.
Qed.

Lemma packets_of_errors (ms : list string) :
  packets_of (map (@ErrorEvent Packet) ms) = [].
Proof. induction ms; simpl; auto. Qed.

Lemma errors_of_errors (ms : list string) :
  errors_of (map (@ErrorEvent Packet) ms) = ms.
Proof. induction ms; simpl; congruence. Qed.

Lemma packets_of_leading (n : Z) : packets_of (leading_warning n) = [].
Proof. unfold leading_warning; destruct (0 <? n); reflexivity. Qed.

Lemma packets_of_discard (n : Z) : packets_of (discard_warning n) = [].
Proof. unfold discard_warning; destruct (0 <? n); reflexivity. Qed.

(** ** The turns of the scan *)

(** A byte that is not a start-of-frame value is stepped over in silence. *)
Lemma scan_loop_skip (fuel : nat) (buffer : Buffer) (st : ScanState) (b : byte) :
  nth_error buffer (iter st) = Some b ->
  is_sof b = false ->
  scan_loop (S fuel) buffer st
  = scan_loop fuel buffer
      {| iter := S (iter st); iter_begin := iter_begin st;
         bytes_needed := bytes_needed st |}.
Proof.
  intros Hb Hs. simpl.
  assert (Hlt : (iter st < List.length buffer)%nat)
    by (apply nth_error_Some; congruence).
  destruct (Nat.eqb_spec (iter st) (List.length buffer)); [lia|].
  unfold scan_step. rewrite Hb, Hs. apply emit_nil.
Qed.

(** A start-of-frame byte the factory makes a packet from: the warning for
    the skipped bytes if any, the packet, and both iterators behind the
    frame. *)
Lemma scan_loop_packet (fuel : nat) (buffer : Buffer) (st : ScanState)
  (b : byte) (packet : Packet) (bn : Z) (error : string) :
  nth_error buffer (iter st) = Some b ->
  is_sof b = true ->
  createPacket (skipn (iter st) buffer) (bytes_needed st)
  = (Some packet, bn, error) ->
  scan_loop (S fuel) buffer st
  = emit (leading_warning (distance (iter_begin st) (iter st))
            ++ [PacketEvent packet])
      (scan_loop fuel buffer
         {| iter := iter st + List.length (frame packet);
            iter_begin := iter st + List.length (frame packet);
            bytes_needed := bn |}).
Proof.
  intros Hb Hs Hc. simpl.
  assert (Hlt : (iter st < List.length buffer)%nat)
    by (apply nth_error_Some; congruence).
  destruct (Nat.eqb_spec (iter st) (List.length buffer)); [lia|].
  unfold scan_step. rewrite Hb, Hs, Hc. reflexivity.
Qed.

(** A start-of-frame byte the factory refuses for good. *)
Lemma scan_loop_refused (fuel : nat) (buffer : Buffer) (st : ScanState)
  (b : byte) (bn : Z) (error : string) :
  nth_error buffer (iter st) = Some b ->
  is_sof b = true ->
  createPacket (skipn (iter st) buffer) (bytes_needed st)
  = (None, bn, error) ->
  (0 <? bn) = false ->
  scan_loop (S fuel) buffer st
  = emit [ErrorEvent error]
      (scan_loop fuel buffer
         {| iter := S (iter st); iter_begin := iter_begin st;
            bytes_needed := bn |}).
Proof.
  intros Hb Hs Hc Hn. simpl.
  assert (Hlt : (iter st < List.length buffer)%nat)
    by (apply nth_error_Some; congruence).
  destruct (Nat.eqb_spec (iter st) (List.length buffer)); [lia|].
  unfold scan_step. rewrite Hb, Hs, Hc, Hn. reflexivity.
Qed.

(** A start-of-frame byte the factory wants more bytes for: the scan stops
    there without a word. *)
Lemma scan_loop_break (fuel : nat) (buffer : Buffer) (st : ScanState)
  (b : byte) (bn : Z) (error : string) :
  nth_error buffer (iter st) = Some b ->
  is_sof b = true ->
  createPacket (skipn (iter st) buffer) (bytes_needed st)
  = (None, bn, error) ->
  0 < bn ->
  scan_loop (S fuel) buffer st
  = Returned ([], {| iter := iter st; iter_begin := iter_begin st;
                     bytes_needed := bn |}).
Proof.
  intros Hb Hs Hc Hn. simpl.
  assert (Hlt : (iter st < List.length buffer)%nat)
    by (apply nth_error_Some; congruence).
  destruct (Nat.eqb_spec (iter st) (List.length buffer)); [lia|].
  unfold scan_step. rewrite Hb, Hs, Hc.
  apply Z.ltb_lt in Hn. rewrite Hn. reflexivity.
Qed.

(** At the end of the buffer the scan is over. *)
Lemma scan_loop_end (fuel : nat) (buffer : Buffer) (st : ScanState) :
  iter st = List.length buffer ->
  scan_loop (S fuel) buffer st = Returned ([], st).
Proof. intros H. simpl. rewrite H, Nat.eqb_refl. reflexivity. Qed.

(** ** The scan returns, inside the buffer *)

(** With a factory that keeps its promise about lengths the scan comes
    back, with [iter_begin] not after [iter], [iter] not after the end, and
    either [iter] at the end or a positive [bytes_needed]. *)
Lemma scan_loop_returns (buffer : Buffer) :
  frames_fit ->
  forall (fuel : nat) (st : ScanState),
    (iter_begin st <= iter st <= List.length buffer)%nat ->
    (List.length buffer - iter st < fuel)%nat ->
    exists ev st',
      scan_loop fuel buffer st = Returned (ev, st')
      /\ (iter_begin st' <= iter st' <= List.length buffer)%nat
      /\ (iter st' = List.length buffer \/ 0 < bytes_needed st').
Proof.
  intros Hfit. induction fuel as [|fuel IH]; intros st Hb Hf; [lia|].
  destruct (Nat.eq_dec (iter st) (List.length buffer)) as [He|Hne].
  - rewrite scan_loop_end by assumption. eauto 6.
  - destruct (nth_error buffer (iter st)) as [b|] eqn:Hnth.
    2:{ apply nth_error_None in Hnth. lia. }
    destruct (is_sof b) eqn:Hs.
    + destruct (createPacket (skipn (iter st) buffer) (bytes_needed st))
        as [[[packet|] bn] error] eqn:Hc.
      * pose proof (Hfit _ _ _ _ _ Hc) as Hlen.
        rewrite length_skipn in Hlen.
        rewrite (scan_loop_packet _ _ _ _ _ _ _ Hnth Hs Hc).
        destruct (IH {| iter := iter st + List.length (frame packet);
                        iter_begin := iter st + List.length (frame packet);
                        bytes_needed := bn |})
          as (ev & st' & Hr & Hi & Hn); simpl; try lia.
        rewrite Hr. simpl. eauto 6.
      * destruct (0 <? bn) eqn:Hbn.
        -- apply Z.ltb_lt in Hbn.
           rewrite (scan_loop_break _ _ _ _ _ _ Hnth Hs Hc Hbn).
           do 2 eexists. split; [reflexivity|]. simpl. split; [lia|auto].
        -- rewrite (scan_loop_refused _ _ _ _ _ _ Hnth Hs Hc Hbn).
           destruct (IH {| iter := S (iter st); iter_begin := iter_begin st;
                           bytes_needed := bn |})
             as (ev & st' & Hr & Hi & Hn); simpl; try lia.
           rewrite Hr. simpl. eauto 6.
    + rewrite (scan_loop_skip _ _ _ _ Hnth Hs).
      destruct (IH {| iter := S (iter st); iter_begin := iter_begin st;
                      bytes_needed := bytes_needed st |})
        as (ev & st' & Hr & Hi & Hn); simpl; try lia.
      rewrite Hr. eauto 6.
Qed.

(** ** More fuel changes nothing *)

Lemma emit_returned_inv {A : Type} (e : list Ev) (o : Outcome (list Ev * A))
  (r : list Ev * A) :
  emit e o = Returned r ->
  exists ev a, o = Returned (ev, a) /\ r = (e ++ ev, a).
Proof.
  destruct o as [[ev a]| |]; simpl; intros H; try discriminate.
  injection H as <-. eauto.
Qed.

Lemma scan_loop_more_fuel (buffer : Buffer) :
  forall (fuel : nat) (st : ScanState) (r : list Ev * ScanState),
    scan_loop fuel buffer st = Returned r ->
    forall fuel', (fuel <= fuel')%nat ->
      scan_loop fuel' buffer st = Returned r.
Proof.
  induction fuel as [|fuel IH]; intros st r H fuel' Hle; [discriminate|].
  destruct fuel' as [|fuel']; [lia|].
  simpl in *.
  destruct (Nat.eqb (iter st) (List.length buffer)); [assumption|].
  destruct (scan_step buffer st) as [ev [st'| st'|]]; try assumption.
  apply emit_returned_inv in H. destruct H as (ev' & a & Hr & ->).
  rewrite (IH _ _ Hr fuel') by lia. reflexivity.
Qed.

(** ** Walking over a span without a frame, and over a frame *)

(** Over a span whose start-of-frame bytes are all refused, the scan makes
    one error callback per refusal and arrives behind the span with
    [iter_begin] untouched. *)
Lemma scan_loop_garbage (g : Buffer) :
  forall (rest pre buffer : Buffer) (st : ScanState) (errors : list string)
         (bn' : Z) (fuel : nat),
    buffer = pre ++ g ++ rest ->
    iter st = List.length pre ->
    refused_markers g rest (bytes_needed st) = Some (errors, bn') ->
    scan_loop (List.length g + fuel) buffer st
    = emit (map (@ErrorEvent Packet) errors)
        (scan_loop fuel buffer
           {| iter := List.length (pre ++ g); iter_begin := iter_begin st;
              bytes_needed := bn' |}).
Proof.
  induction g as [|b g IH]; intros rest pre buffer st errors bn' fuel Hbuf Hit Href.
  - simpl in Href. injection Href as <- <-. simpl. rewrite emit_nil.
    rewrite app_nil_r, <- Hit. destruct st; reflexivity.
  - assert (Hnth : nth_error buffer (iter st) = Some b).
    { rewrite Hbuf, Hit. apply nth_error_length_app. }
    assert (Hskip : skipn (iter st) buffer = (b :: g) ++ rest).
    { rewrite Hbuf, Hit. apply skipn_length_app. }
    assert (Hbuf' : buffer = (pre ++ [b]) ++ g ++ rest).
    { rewrite Hbuf, <- app_assoc. reflexivity. }
    assert (Hlen : List.length (pre ++ b :: g) = List.length ((pre ++ [b]) ++ g)).
    { rewrite <- app_assoc. reflexivity. }
    assert (Hit' : S (iter st) = List.length (pre ++ [b])).
    { rewrite length_app, Hit. simpl. lia. }
    simpl in Href.
    change (List.length (b :: g) + fuel)%nat with (S (List.length g + fuel)).
    destruct (is_sof b) eqn:Hs.
    + change (b :: g ++ rest) with ((b :: g) ++ rest) in Href.
      rewrite <- Hskip in Href.
      destruct (createPacket (skipn (iter st) buffer) (bytes_needed st))
        as [[[packet|] bn1] error] eqn:Hc; [discriminate|].
      destruct (0 <? bn1) eqn:Hbn; [discriminate|].
      destruct (refused_markers g rest bn1) as [[errors' bn'']|] eqn:Hrec;
        [|discriminate].
      injection Href as <- <-.
      rewrite (scan_loop_refused _ _ _ _ _ _ Hnth Hs Hc Hbn).
      rewrite (IH rest (pre ++ [b]) buffer
                 {| iter := S (iter st); iter_begin := iter_begin st;
                    bytes_needed := bn1 |}
                 errors' bn'' fuel Hbuf' Hit' Hrec).
      rewrite emit_emit, Hlen. reflexivity.
    + rewrite (scan_loop_skip _ _ _ _ Hnth Hs).
      rewrite (IH rest (pre ++ [b]) buffer
                 {| iter := S (iter st); iter_begin := iter_begin st;
                    bytes_needed := bytes_needed st |}
                 errors bn' fuel Hbuf' Hit' Href).
      rewrite Hlen. reflexivity.
Qed.

(** At a frame the factory decodes, the scan says how many bytes it had
    skipped, if any, dispatches the packet and arrives behind the frame
    with both iterators. *)
Lemma scan_loop_frame (f rest pre buffer : Buffer) (st : ScanState)
  (packet : Packet) (bn : Z) (error : string) (fuel : nat) :
  buffer = pre ++ f ++ rest ->
  iter st = List.length pre ->
  starts_with_sof f = true ->
  createPacket (f ++ rest) (bytes_needed st) = (Some packet, bn, error) ->
  List.length (frame packet) = List.length f ->
  scan_loop (S fuel) buffer st
  = emit (leading_warning (distance (iter_begin st) (iter st))
            ++ [PacketEvent packet])
      (scan_loop fuel buffer
         {| iter := List.length (pre ++ f);
            iter_begin := List.length (pre ++ f); bytes_needed := bn |}).
Proof.
  intros Hbuf Hit Hsof Hc Hlen.
  destruct f as [|b f]; [discriminate|]. simpl in Hsof.
  assert (Hnth : nth_error buffer (iter st) = Some b).
  { rewrite Hbuf, Hit. apply nth_error_length_app. }
  assert (Hskip : skipn (iter st) buffer = (b :: f) ++ rest).
  { rewrite Hbuf, Hit. apply skipn_length_app. }
  rewrite <- Hskip in Hc.
  rewrite (scan_loop_packet _ _ _ _ _ _ _ Hnth Hsof Hc).
  rewrite Hlen, length_app, Hit. reflexivity.
Qed.

(** ** From the inner loop to the iteration *)

(** A scan that ends at the end of the buffer with nothing skipped since
    the last frame erases the whole buffer without a word and asks for a
    minimum frame. *)
Lemma scan_pass_clean (buffer : Buffer) (fuel : nat) (ev : list Ev) (bn : Z) :
  scan_loop fuel buffer scan_start
  = Returned (ev, {| iter := List.length buffer;
                     iter_begin := List.length buffer;
                     bytes_needed := bn |}) ->
  (fuel <= S (List.length buffer))%nat ->
  scan_pass buffer
  = Returned (ev, {| final := {| iter := List.length buffer;
                                 iter_begin := List.length buffer;
                                 bytes_needed := bn |};
                     buffer_after := [];
                     needed_after := VESC_MIN_FRAME_SIZE |}).
Proof.
  intros H Hle. unfold scan_pass, scan_buffer.
  rewrite (scan_loop_more_fuel _ _ _ _ H _ Hle).
  unfold finish_pass. simpl.
  rewrite distance_self, Nat.eqb_refl, skipn_all, app_nil_r. reflexivity.
Qed.

(** A read into an empty buffer never counts as a time-out. *)
Lemma read_phase_empty (bn : Z) (read : Z -> ReadResult) :
  read_phase [] bn read
  = (serial_error_report (rr_ec (read (bytes_to_read bn))),
     rr_bytes (read (bytes_to_read bn))).
Proof.
  unfold read_phase, timeout_report. simpl.
  destruct (rr_bytes (read (bytes_to_read bn))) as [|x l]; simpl;
    rewrite ?andb_false_r, ?app_nil_r; reflexivity.
Qed.

(** A read that brings bytes and no error makes no callback. *)
Lemma read_phase_quiet (buffer : Buffer) (bn : Z) (read : Z -> ReadResult) :
  ec_value (rr_ec (read (bytes_to_read bn))) = 0 ->
  rr_bytes (read (bytes_to_read bn)) <> [] ->
  read_phase buffer bn read
  = ([], buffer ++ rr_bytes (read (bytes_to_read bn))).
Proof.
  intros Hec Hne. unfold read_phase, serial_error_report, timeout_report.
  rewrite Hec. simpl.
  destruct (rr_bytes (read (bytes_to_read bn))) as [|x l]; [congruence|].
  simpl. rewrite andb_false_r. reflexivity.
Qed.

(** The callbacks of a run are those of its first iterations followed by
    those of the later ones. *)
Lemma rxThread_app (reads1 reads2 : list (Z -> ReadResult)) :
  forall (buffer b1 b2 : Buffer) (t1 t2 : list Ev),
    rxThread buffer reads1 = Returned (t1, b1) ->
    rxThread b1 reads2 = Returned (t2, b2) ->
    rxThread buffer (reads1 ++ reads2) = Returned (t1 ++ t2, b2).
Proof.
  induction reads1 as [|read reads1 IH]; intros buffer b1 b2 t1 t2 H1 H2.
  - simpl in H1. injection H1 as <- <-. assumption.
  - simpl in *.
    destruct (rx_iteration buffer read) as [[ev b]| |]; try discriminate.
    apply emit_returned_inv in H1. destruct H1 as (ev' & a & Hr & E).
    injection E as -> ->.
    rewrite (IH _ _ _ _ _ Hr H2). simpl. rewrite app_assoc. reflexivity.
Qed.

(** One error text per refused start-of-frame byte. *)
Lemma refused_markers_length (g : Buffer) :
  forall (rest : Buffer) (bn : Z) (errors : list string) (bn' : Z),
    refused_markers g rest bn = Some (errors, bn') ->
    List.length errors = count_sof g.
Proof.
  unfold count_sof.
  induction g as [|b g IH]; intros rest bn errors bn' H; simpl in H.
  - injection H as <- <-. reflexivity.
  - simpl. destruct (is_sof b).
    + destruct (createPacket (b :: g ++ rest) bn) as [[[packet|] bn1] error];
        [discriminate|].
      destruct (0 <? bn1); [discriminate|].
      destruct (refused_markers g rest bn1) as [[errors' bn'']|] eqn:Hrec;
        [|discriminate].
      injection H as <- <-. simpl. f_equal. eapply IH; eassumption.
    + eapply IH; eassumption.
Qed.

(** The pass over a span, a frame, a span and a frame. *)
Lemma scan_pass_span_frame_span_frame (g1 f1 g2 f2 : Buffer)
  (p1 p2 : Packet) (errors1 errors2 : list string) (bn1 bn2 bn3 bn4 : Z)
  (e1 e2 : string) :
  refused_markers g1 (f1 ++ g2 ++ f2) VESC_MIN_FRAME_SIZE
  = Some (errors1, bn1) ->
  starts_with_sof f1 = true ->
  createPacket (f1 ++ g2 ++ f2) bn1 = (Some p1, bn2, e1) ->
  List.length (frame p1) = List.length f1 ->
  refused_markers g2 f2 bn2 = Some (errors2, bn3) ->
  starts_with_sof f2 = true ->
  createPacket f2 bn3 = (Some p2, bn4, e2) ->
  List.length (frame p2) = List.length f2 ->
  scan_pass (g1 ++ f1 ++ g2 ++ f2)
  = Returned
      (map ErrorEvent errors1
         ++ leading_warning (Z.of_nat (List.length g1))
         ++ [PacketEvent p1]
         ++ map ErrorEvent errors2
         ++ leading_warning (Z.of_nat (List.length g2))
         ++ [PacketEvent p2],
       {| final := {| iter := List.length (g1 ++ f1 ++ g2 ++ f2);
                      iter_begin := List.length (g1 ++ f1 ++ g2 ++ f2);
                      bytes_needed := bn4 |};
          buffer_after := [];
          needed_after := VESC_MIN_FRAME_SIZE |}).
Proof.
  intros Hg1 Hs1 Hc1 Hl1 Hg2 Hs2 Hc2 Hl2.
  set (buffer := g1 ++ f1 ++ g2 ++ f2).
  assert (Hb3 : buffer = (g1 ++ f1) ++ g2 ++ f2)
    by (unfold buffer; rewrite <- app_assoc; reflexivity).
  assert (Hb4 : buffer = ((g1 ++ f1) ++ g2) ++ f2 ++ [])
    by (unfold buffer; rewrite app_nil_r, <- !app_assoc; reflexivity).
  assert (Hend : List.length (((g1 ++ f1) ++ g2) ++ f2) = List.length buffer)
    by (unfold buffer; rewrite <- !app_assoc; reflexivity).
  assert (Hf1 : (0 < List.length f1)%nat)
    by (destruct f1; [discriminate|simpl; lia]).
  assert (Hf2 : (0 < List.length f2)%nat)
    by (destruct f2; [discriminate|simpl; lia]).
  rewrite <- (app_nil_r f2) in Hc2.
  pose proof (scan_loop_garbage g1 (f1 ++ g2 ++ f2) [] buffer scan_start
                errors1 bn1 (S (List.length g2 + 2)) eq_refl eq_refl Hg1)
    as H1.
  unfold scan_start in H1 at 2. cbn [iter iter_begin bytes_needed app] in H1.
  rewrite (scan_loop_frame f1 (g2 ++ f2) g1 buffer
             {| iter := List.length g1; iter_begin := 0;
                bytes_needed := bn1 |}
             p1 bn2 e1 (List.length g2 + 2) eq_refl eq_refl Hs1 Hc1 Hl1)
    in H1.
  rewrite (scan_loop_garbage g2 f2 (g1 ++ f1) buffer
             {| iter := List.length (g1 ++ f1);
                iter_begin := List.length (g1 ++ f1); bytes_needed := bn2 |}
             errors2 bn3 2 Hb3 eq_refl Hg2) in H1.
  cbn [iter iter_begin bytes_needed] in H1.
  rewrite (scan_loop_frame f2 [] ((g1 ++ f1) ++ g2) buffer
             {| iter := List.length ((g1 ++ f1) ++ g2);
                iter_begin := List.length (g1 ++ f1); bytes_needed := bn3 |}
             p2 bn4 e2 1 Hb4 eq_refl Hs2 Hc2 Hl2) in H1.
  rewrite scan_loop_end in H1 by exact Hend.
  cbn [iter iter_begin bytes_needed] in H1.
  rewrite distance_app_length in H1.
  change (distance 0 (List.length g1))
    with (distance (List.length (@nil byte)) (List.length ([] ++ g1))) in H1.
  rewrite distance_app_length in H1.
  rewrite Hend in H1. rewrite !emit_emit, emit_returned in H1.
  rewrite (scan_pass_clean buffer _ _ _ H1)
    by (unfold buffer; rewrite !length_app; lia).
  rewrite app_nil_r, <- !app_assoc. reflexivity.
Qed.

(** The pass over a buffer that is one frame. *)
Lemma scan_pass_one_frame (f : Buffer) (packet : Packet) (bn : Z)
  (error : string) :
  starts_with_sof f = true ->
  createPacket f VESC_MIN_FRAME_SIZE = (Some packet, bn, error) ->
  List.length (frame packet) = List.length f ->
  scan_pass f
  = Returned ([PacketEvent packet],
              {| final := {| iter := List.length f;
                             iter_begin := List.length f;
                             bytes_needed := bn |};
                 buffer_after := [];
                 needed_after := VESC_MIN_FRAME_SIZE |}).
Proof.
  intros Hs Hc Hl.
  assert (Hf : (0 < List.length f)%nat)
    by (destruct f; [discriminate|simpl; lia]).
  assert (Hb : f = [] ++ f ++ []) by (rewrite app_nil_r; reflexivity).
  rewrite <- (app_nil_r f) in Hc.
  pose proof (scan_loop_frame f [] [] f scan_start packet bn error 1
                Hb eq_refl Hs Hc Hl) as H1.
  cbn [app] in H1.
  rewrite (scan_loop_end 0 f {| iter := List.length f;
                                iter_begin := List.length f;
                                bytes_needed := bn |}) in H1
    by reflexivity.
  unfold scan_start in H1 at 2 3.
  cbn [iter iter_begin] in H1. rewrite distance_self in H1.
  rewrite emit_returned in H1.
  rewrite (scan_pass_clean f _ _ _ H1) by lia. reflexivity.
Qed.

(** The pass over a buffer that begins a frame the factory wants more
    bytes for: nothing is said and nothing erased. *)
Lemma scan_pass_waiting (buffer : Buffer) (bn : Z) (error : string) :
  starts_with_sof buffer = true ->
  createPacket buffer VESC_MIN_FRAME_SIZE = (None, bn, error) ->
  0 < bn ->
  scan_pass buffer
  = Returned ([], {| final := {| iter := 0; iter_begin := 0;
                                 bytes_needed := bn |};
                     buffer_after := buffer;
                     needed_after := bn |}).
Proof.
  intros Hs Hc Hbn. destruct buffer as [|b buffer]; [discriminate|].
  unfold scan_pass, scan_buffer.
  rewrite (scan_loop_break _ (b :: buffer) scan_start b bn error
             eq_refl Hs Hc Hbn).
  reflexivity.
Qed.

(** On a buffer that is not empty the first half of an iteration is the
    scan pass. *)
Lemma scan_phase_pass (buffer : Buffer) (ev : list Ev) (r : PassResult) :
  buffer <> [] ->
  scan_pass buffer = Returned (ev, r) ->
  scan_phase buffer = Returned (ev, (buffer_after r, needed_after r)).
Proof.
  intros Hne H. destruct buffer as [|b buffer]; [congruence|].
  unfold scan_phase. rewrite H. reflexivity.
Qed.

End ReaderFacts.

Section ReaderClaims.

Context {codec : Codec}.

Local Abbreviation Ev := (Event Packet).

(** C3, as amended.  A scan pass comes back (the factory keeping its promise
    about frame lengths) and removes from the buffer exactly the scanned
    prefix [[begin, iter)], where [iter] is the place the scan stopped at:
    every dispatched frame and every byte stepped over.  What is kept is
    the rest of the buffer from [iter] on, the frame still waiting for
    bytes.  [iter_begin], the end of the last dispatched frame, is never
    after [iter]; the bytes between the two are erased as well, and their
    number is what the discard warning, the last callback of the pass,
    reports. *)
Theorem scan_pass_erases_scanned_prefix (buffer : Buffer) :
  frames_fit ->
  exists ev r,
    scan_buffer buffer = Returned (ev, final r)
    /\ scan_pass buffer
       = Returned
           (ev ++ discard_warning
                    (distance (iter_begin (final r)) (iter (final r))),
            r)
    /\ (iter_begin (final r) <= iter (final r) <= List.length buffer)%nat
    /\ buffer_after r = skipn (iter (final r)) buffer
    /\ buffer = firstn (iter (final r)) buffer ++ buffer_after r
    /\ List.length (buffer_after r)
       = (List.length buffer - iter (final r))%nat.
Proof.
  intros Hfit.
  destruct (scan_loop_returns buffer Hfit (S (List.length buffer)) scan_start)
    as (ev & st & Hr & Hi & _); simpl; try lia.
  unfold scan_pass, scan_buffer. rewrite Hr.
  exists ev, (snd (finish_pass buffer st)). simpl.
  repeat split; try lia.
  - symmetry. apply firstn_skipn.
  - apply length_skipn.
Qed.

(** C5.  At a start-of-frame byte for which the factory gives no packet and
    leaves [bytes_needed] at zero, the turn of the scan hands the factory's
    error text to the error handler, moves [iter] forward by one byte,
    leaves [iter_begin] where it was and does not leave the loop: the pass
    goes on with the rest of the buffer. *)
Theorem decode_error_advances_one_byte (fuel : nat) (buffer : Buffer)
  (st : ScanState) (b : byte) (bn : Z) (error : string) :
  nth_error buffer (iter st) = Some b ->
  is_sof b = true ->
  createPacket (skipn (iter st) buffer) (bytes_needed st)
  = (None, bn, error) ->
  bn = 0 ->
  let st' := {| iter := iter st + 1; iter_begin := iter_begin st;
                bytes_needed := 0 |} in
  scan_step buffer st = ([ErrorEvent error], Continue st')
  /\ scan_loop (S fuel) buffer st
     = emit [ErrorEvent error] (scan_loop fuel buffer st').
Proof.
  intros Hb Hs Hc -> st'. subst st'. rewrite Nat.add_1_r. split.
  - unfold scan_step. rewrite Hb, Hs, Hc. reflexivity.
  - apply (scan_loop_refused fuel buffer st b 0 error); auto.
Qed.

(** C8.  In an iteration whose read was asked for a positive number of
    bytes and brought none, with a buffer that is not empty after the scan,
    the reader makes the read-timeout report once, as the last callback of
    the iteration, and the buffer it keeps for the next iteration is the
    one the scan left. *)
Theorem timeout_mid_frame_reports_once (buffer0 buffer : Buffer)
  (ev : list Ev) (bn : Z) (read : Z -> ReadResult) :
  scan_phase buffer0 = Returned (ev, (buffer, bn)) ->
  0 < bytes_to_read bn ->
  rr_bytes (read (bytes_to_read bn)) = [] ->
  buffer <> [] ->
  let report := serial_error_report (rr_ec (read (bytes_to_read bn))) in
  rx_iteration buffer0 read
  = Returned
      (ev ++ report
          ++ [ErrorEvent
                "Possibly out-of-sync with VESC, read timout in the middle of a frame."],
       buffer)
  /\ count_occ string_dec (errors_of report) msg_timeout = 0%nat.
Proof.
  intros Hscan Hpos Hread Hne report. subst report. split.
  - unfold rx_iteration, read_phase, timeout_report. rewrite Hscan, Hread.
    rewrite app_nil_r.
    assert (Hbn : (0 <? bn) = true).
    { apply Z.ltb_lt. unfold bytes_to_read in Hpos. lia. }
    rewrite Hbn. destruct buffer as [|x buffer]; [congruence|].
    reflexivity.
  - unfold serial_error_report.
    destruct (0 <? ec_value (rr_ec (read (bytes_to_read bn))));
      reflexivity.
Qed.

(** C7.  A valid frame that begins an empty buffer and arrives in two reads,
    cut inside the frame (the first part begins with the start-of-frame
    byte, the second part is not empty), the factory asking for more bytes
    on the first part: over the iterations that take the two parts and
    scan them, with reads that report no error, the reader dispatches the
    packet of the frame once and calls the error handler not at all. *)
Theorem split_frame_one_packet_no_warning (part1 part2 : Buffer)
  (packet : Packet) (k bn : Z) (e1 e2 : string)
  (read1 read2 read3 : Z -> ReadResult) :
  starts_with_sof part1 = true ->
  part2 <> [] ->
  createPacket part1 VESC_MIN_FRAME_SIZE = (None, k, e1) ->
  0 < k ->
  createPacket (part1 ++ part2) VESC_MIN_FRAME_SIZE
  = (Some packet, bn, e2) ->
  List.length (frame packet) = List.length (part1 ++ part2) ->
  rr_bytes (read1 (bytes_to_read VESC_MIN_FRAME_SIZE)) = part1 ->
  ec_value (rr_ec (read1 (bytes_to_read VESC_MIN_FRAME_SIZE))) = 0 ->
  rr_bytes (read2 (bytes_to_read k)) = part2 ->
  ec_value (rr_ec (read2 (bytes_to_read k))) = 0 ->
  ec_value (rr_ec (read3 (bytes_to_read VESC_MIN_FRAME_SIZE))) = 0 ->
  rxThread [] [read1; read2] = Returned ([], part1 ++ part2)
  /\ rxThread [] [read1; read2; read3]
     = Returned ([PacketEvent packet],
                 rr_bytes (read3 (bytes_to_read VESC_MIN_FRAME_SIZE))).
Proof.
  intros Hs Hp2 Hc1 Hk Hc Hl Hr1 He1 Hr2 He2 Hr3.
  assert (Hp1 : part1 <> []) by (destruct part1; [discriminate|congruence]).
  assert (Hne : part1 ++ part2 <> [])
    by (destruct part1; [congruence|discriminate]).
  assert (Hs' : starts_with_sof (part1 ++ part2) = true)
    by (destruct part1; [congruence|exact Hs]).
  assert (H1 : rx_iteration [] read1 = Returned ([], part1)).
  { unfold rx_iteration. cbn [scan_phase].
    rewrite read_phase_quiet; rewrite ?Hr1; auto. }
  assert (H2 : rx_iteration part1 read2 = Returned ([], part1 ++ part2)).
  { unfold rx_iteration.
    rewrite (scan_phase_pass _ _ _ Hp1 (scan_pass_waiting _ _ _ Hs Hc1 Hk)).
    cbn [buffer_after needed_after].
    rewrite read_phase_quiet; rewrite ?Hr2; auto. }
  assert (H3 : rx_iteration (part1 ++ part2) read3
               = Returned ([PacketEvent packet],
                   rr_bytes (read3 (bytes_to_read VESC_MIN_FRAME_SIZE)))).
  { unfold rx_iteration.
    rewrite (scan_phase_pass _ _ _ Hne (scan_pass_one_frame _ _ _ _ Hs' Hc Hl)).
    cbn [buffer_after needed_after].
    rewrite read_phase_empty. unfold serial_error_report.
    rewrite Hr3. reflexivity. }
  split.
  - cbn [rxThread]. rewrite H1. cbn [emit]. rewrite H2. reflexivity.
  - cbn [rxThread]. rewrite H1. cbn [emit]. rewrite H2. cbn [emit].
    rewrite H3. reflexivity.
Qed.

End ReaderClaims.

(** * Properties of the lifecycle calls *)

Section LifecycleClaims.

Context {codec : Codec} {text : ExceptionText} {device : SerialDevice}.

(** What [write_frame] does, by what the device does with the write. *)
Lemma write_frame_cases (data : Buffer) (sp : SerialPort) :
  let sp' := {| is_open := is_open sp; options := options sp;
                writes := writes sp ++ [data] |} in
  match write_some_takes data with
  | inl written =>
      if Nat.eqb written (List.length data) then
        write_frame data sp = (Ok tt, sp')
      else
        write_frame data sp
        = (Throw (SerialException
                    (send_failure_prefix
                       ++ SerialException_what
                            (msg_short_write written (List.length data)))),
           sp')
  | inr w =>
      write_frame data sp
      = (Throw (SerialException (send_failure_prefix ++ w)), sp')
  end.
Proof.
  unfold write_frame, try_catch, bind, write_some, throw, ret.
  destruct (write_some_takes data) as [written|w]; simpl; [|reflexivity].
  destruct (Nat.eqb written (List.length data)); reflexivity.
Qed.

(** A [connect] that throws throws a [SerialException] and starts no
    thread: the thread pointer and the run flag are as before. *)
Lemma connect_throw_starts_no_thread (port : string) (impl : Impl)
  (e : exception) :
  fst (connect port impl) = Throw e ->
  (exists description, e = SerialException description)
  /\ rx_thread_ (snd (connect port impl)) = rx_thread_ impl
  /\ rx_thread_run_ (snd (connect port impl)) = rx_thread_run_ impl.
Proof.
  unfold connect. destruct (isConnected impl).
  - simpl. intros H. injection H as <-. eauto.
  - unfold open_and_configure, try_catch, throw.
    match goal with
    | |- context [match ?m (serial_port_ impl) with _ => _ end] =>
        destruct (m (serial_port_ impl)) as [[u|e0] sp]
    end; simpl; intros H; [discriminate|].
    injection H as <-. eauto.
Qed.

(** When the open itself fails, [connect] leaves the port closed. *)
Lemma connect_open_failure_stays_closed (port : string) (impl : Impl)
  (w : string) :
  isConnected impl = false ->
  open_throws port = Some w ->
  fst (connect port impl)
  = Throw (SerialException
             (c_str ("Failed to open the serial port " ++ port
                       ++ " to the VESC. " ++ w)))
  /\ isConnected (snd (connect port impl)) = false.
Proof.
  intros Hc Ho. unfold connect. rewrite Hc.
  unfold open_and_configure, try_catch, bind, open, throw. rewrite Ho.
  cbn [fst snd what isConnected serial_port_].
  split; [reflexivity|]. exact Hc.
Qed.

(** C9.  When [write_some] takes fewer or more bytes than the frame has,
    [send] throws a [SerialException] to its caller, has called
    [write_some] once, with the frame, and has called no handler. *)
Theorem send_short_write_throws_once (packet : Packet) (impl : Impl)
  (written : nat) :
  write_some_takes (frame packet) = inl written ->
  written <> List.length (frame packet) ->
  exists description,
    fst (send packet impl) = Throw (SerialException description)
    /\ writes (serial_port_ (snd (send packet impl)))
       = writes (serial_port_ impl) ++ [frame packet]
    /\ handled (snd (send packet impl)) = handled impl.
Proof.
  intros Hw Hne. unfold send.
  pose proof (write_frame_cases (frame packet) (serial_port_ impl)) as H.
  cbv zeta in H. rewrite Hw in H.
  apply Nat.eqb_neq in Hne. rewrite Hne in H. rewrite H. simpl. eauto.
Qed.

(** C10.  Whatever [send] throws is a [SerialException] whose description
    is the text "Failed to open the serial port to the VESC. " followed by
    the [what()] of the exception caught inside: that of [write_some], or
    that of the short-write [SerialException] which [send] has thrown
    itself. *)
Theorem send_failure_says_open_failed (packet : Packet) (impl : Impl)
  (e : exception) :
  fst (send packet impl) = Throw e ->
  exists original,
    e = SerialException
          ("Failed to open the serial port to the VESC. " ++ original)
    /\ (write_some_takes (frame packet) = inr original
        \/ exists written,
             write_some_takes (frame packet) = inl written
             /\ written <> List.length (frame packet)
             /\ original
                = SerialException_what
                    (msg_short_write written (List.length (frame packet)))).
Proof.
  unfold send.
  pose proof (write_frame_cases (frame packet) (serial_port_ impl)) as H.
  cbv zeta in H.
  destruct (write_some_takes (frame packet)) as [written|w].
  - destruct (Nat.eqb_spec written (List.length (frame packet))) as [E|E];
      rewrite H; simpl; intros He; [discriminate|].
    injection He as <-. eexists. split; [reflexivity|]. right. eauto.
  - rewrite H. simpl. intros He. injection He as <-.
    eexists. split; [reflexivity|]. left. reflexivity.
Qed.

End LifecycleClaims.

(** * Concrete runs *)

(** The sample factory keeps its promise about frame lengths. *)
Lemma sample_frames_fit : @frames_fit Sample.codec.
Proof.
  intros window bn packet bn' error. cbn [createPacket frame Sample.codec].
  unfold Sample.createPacket, Sample.VESC_MIN_FRAME_SIZE.
  destruct (Z.of_nat (List.length window) <? 4); [discriminate|].
  destruct window as [|sof [|len rest]]; try discriminate.
  set (window := sof :: len :: rest).
  set (total := Z.of_N (Byte.to_N len) + 3).
  destruct (negb (N.eqb (Byte.to_N sof) 2)); [discriminate|].
  destruct (N.eqb (Byte.to_N len) 0); [discriminate|].
  destruct (Z.of_nat (List.length window) <? total) eqn:Hfit; [discriminate|].
  destruct (N.eqb (Byte.to_N (nth (Z.to_nat (total - 1)) window x00)) 3);
    [|discriminate].
  intros H. injection H as <- _ _.
  apply Z.ltb_ge in Hfit. rewrite length_firstn. subst total. lia.
Qed.

(** On a device that cannot be opened [connect] leaves the port closed, and
    a [write_some] that throws reaches the caller of [send] under the same
    words as a short write. *)
Example connect_unplugged :
  @connect Sample.codec Sample.text Sample.unplugged "/dev/ttyACM0"
    Sample.fresh
  = (Throw
       (SerialException
          "Failed to open the serial port /dev/ttyACM0 to the VESC. open: No such file or directory"),
     Sample.fresh).
Proof. reflexivity. Qed.

Example send_unplugged :
  fst (@send Sample.codec Sample.text Sample.unplugged Sample.frame_a
         Sample.connected)
  = Throw
      (SerialException
         "Failed to open the serial port to the VESC. write_some: Bad file descriptor").
Proof. reflexivity. Qed.

(** C1.  A port that opens and then refuses the baud rate: [connect] throws
    its [SerialException] and starts no thread, but the port it opened
    stays open, with none of the options set, and [isConnected] answers
    true. *)
Theorem connect_option_failure_leaves_port_open :
  @connect Sample.codec Sample.text Sample.stubborn "/dev/ttyACM0"
    Sample.fresh
  = (Throw
       (SerialException
          "Failed to open the serial port /dev/ttyACM0 to the VESC. set_option: Inappropriate ioctl for device"),
     {| rx_thread_ := None; rx_thread_run_ := false;
        serial_port_ := {| is_open := true; options := []; writes := [] |};
        handled := [] |})
  /\ isConnected
       (snd (@connect Sample.codec Sample.text Sample.stubborn
               "/dev/ttyACM0" Sample.fresh))
     = true.
Proof. split; reflexivity. Qed.

(** C2, as stated, fails.  On a line that carries a false start, a frame
    and a second frame (the second span is empty) the error handler is
    called twice before the first packet, not once: the factory's refusal
    of the false start is a callback of its own.  And on a line that
    carries five bytes of noise before the two frames the reader never
    holds the five together: it reads a minimum frame at a time and
    reports four discarded bytes, then one. *)
Lemma resync_two_warnings_fails :
  @rxThread_on_line Sample.codec 4 []
    (Sample.false_start ++ Sample.frame_a ++ [] ++ Sample.frame_b)
  = Returned
      ([ErrorEvent "Invalid end-of-frame character";
        ErrorEvent "Out-of-sync with VESC, discarding 4 bytes.";
        PacketEvent Sample.frame_a; PacketEvent Sample.frame_b],
       ([], []))
  /\ @rxThread_on_line Sample.codec 5 []
       (Sample.noise ++ Sample.frame_a ++ [] ++ Sample.frame_b)
     = Returned
         ([ErrorEvent "Out-of-sync with VESC, discarding 4 bytes.";
           ErrorEvent "Out-of-sync with VESC, discarding 1 bytes.";
           PacketEvent Sample.frame_a; PacketEvent Sample.frame_b],
          ([], [])).
Proof. split; reflexivity. Qed.

(** C3, as stated, fails.  A pass over one byte of noise and the beginning
    of a frame stops at the frame with [iter] at 1 and [iter_begin] at 0;
    the buffer it leaves is the buffer from [iter] on, so the noise byte,
    which is at [iter_begin], is gone. *)
Lemma erase_reaches_past_iter_begin :
  @scan_pass Sample.codec [x09; x02; x01]
  = Returned
      ([ErrorEvent "Out-of-sync with VESC, discarding 1 bytes."],
       {| final := {| iter := 1; iter_begin := 0; bytes_needed := 2 |};
          buffer_after := [x02; x01]; needed_after := 2 |})
  /\ skipn 0 [x09; x02; x01] <> [x02; x01].
Proof. split; [reflexivity|discriminate]. Qed.

(** C3, as amended, on the same buffer. *)
Lemma scan_pass_erases_scanned_prefix_witness :
  exists ev r,
    @scan_buffer Sample.codec [x09; x02; x01] = Returned (ev, final r)
    /\ @scan_pass Sample.codec [x09; x02; x01]
       = Returned
           (ev ++ discard_warning
                    (distance (iter_begin (final r)) (iter (final r))),
            r)
    /\ (iter_begin (final r) <= iter (final r) <= 3)%nat
    /\ buffer_after r = skipn (iter (final r)) [x09; x02; x01]
    /\ [x09; x02; x01]
       = firstn (iter (final r)) [x09; x02; x01] ++ buffer_after r
    /\ List.length (buffer_after r) = (3 - iter (final r))%nat.
Proof.
  exact (@scan_pass_erases_scanned_prefix Sample.codec [x09; x02; x01]
           sample_frames_fit).
Defined.

(** C5 on a false start followed by a frame. *)
Lemma decode_error_advances_one_byte_witness :
  @scan_step Sample.codec (Sample.false_start ++ Sample.frame_a)
    {| iter := 0; iter_begin := 0; bytes_needed := 4 |}
  = ([ErrorEvent "Invalid end-of-frame character"],
     Continue {| iter := 1; iter_begin := 0; bytes_needed := 0 |})
  /\ @scan_loop Sample.codec 9 (Sample.false_start ++ Sample.frame_a)
       {| iter := 0; iter_begin := 0; bytes_needed := 4 |}
     = emit [ErrorEvent "Invalid end-of-frame character"]
         (@scan_loop Sample.codec 8 (Sample.false_start ++ Sample.frame_a)
            {| iter := 1; iter_begin := 0; bytes_needed := 0 |}).
Proof.
  exact (@decode_error_advances_one_byte Sample.codec 8
           (Sample.false_start ++ Sample.frame_a)
           {| iter := 0; iter_begin := 0; bytes_needed := 4 |}
           x02 0 "Invalid end-of-frame character"
           eq_refl eq_refl eq_refl eq_refl).
Defined.

(** C7 on a frame of four bytes cut in the middle. *)
Lemma split_frame_one_packet_no_warning_witness :
  @rxThread Sample.codec []
    [Sample.brings [x02; x01]; Sample.brings [x07; x03]]
  = Returned ([], [x02; x01] ++ [x07; x03])
  /\ @rxThread Sample.codec []
       [Sample.brings [x02; x01]; Sample.brings [x07; x03];
        Sample.brings []]
     = Returned ([PacketEvent Sample.frame_a], []).
Proof.
  refine (@split_frame_one_packet_no_warning Sample.codec
            [x02; x01] [x07; x03] Sample.frame_a 2 0
            "Buffer does not contain a complete frame" ""
            (Sample.brings [x02; x01]) (Sample.brings [x07; x03])
            (Sample.brings [])
            eq_refl _ eq_refl eq_refl eq_refl eq_refl eq_refl eq_refl
            eq_refl eq_refl eq_refl).
  discriminate.
Defined.

(** C8 on the first half of a frame and a read that brings nothing. *)
Lemma timeout_mid_frame_reports_once_witness :
  @rx_iteration Sample.codec [x02; x01] (Sample.brings [])
  = Returned
      ([ErrorEvent
          "Possibly out-of-sync with VESC, read timout in the middle of a frame."],
       [x02; x01])
  /\ count_occ string_dec
       (@errors_of (@Packet Sample.codec)
          (serial_error_report (rr_ec (Sample.brings [] 2))))
       msg_timeout
     = 0%nat.
Proof.
  refine (@timeout_mid_frame_reports_once Sample.codec
            [x02; x01] [x02; x01] [] 2 (Sample.brings [])
            eq_refl eq_refl eq_refl _).
  discriminate.
Defined.

(** C9 on a device that takes three bytes of a frame of four. *)
Lemma send_short_write_throws_once_witness :
  exists description,
    fst (@send Sample.codec Sample.text Sample.stubborn
           Sample.frame_a Sample.connected)
    = Throw (SerialException description)
    /\ writes (serial_port_
                 (snd (@send Sample.codec Sample.text Sample.stubborn
                         Sample.frame_a Sample.connected)))
       = writes (serial_port_ Sample.connected) ++ [Sample.frame_a]
    /\ handled (snd (@send Sample.codec Sample.text Sample.stubborn
                       Sample.frame_a Sample.connected))
       = handled Sample.connected.
Proof.
  refine (@send_short_write_throws_once Sample.codec Sample.text
            Sample.stubborn Sample.frame_a Sample.connected 3 eq_refl _).
  discriminate.
Defined.

(** C10 on the same short write: the caller reads of a port that failed
    to open. *)
Lemma send_failure_says_open_failed_witness :
  exists original,
    SerialException
      "Failed to open the serial port to the VESC. SerialException Wrote 3 bytes, expected 4. failed."
    = SerialException
        ("Failed to open the serial port to the VESC. " ++ original)
    /\ (@write_some_takes Sample.stubborn Sample.frame_a = inr original
        \/ exists written,
             @write_some_takes Sample.stubborn Sample.frame_a = inl written
             /\ written <> 4%nat
             /\ original
                = @SerialException_what Sample.text
                    (msg_short_write written 4)).
Proof.
  exact (@send_failure_says_open_failed Sample.codec Sample.text
           Sample.stubborn Sample.frame_a Sample.connected
           (SerialException
              "Failed to open the serial port to the VESC. SerialException Wrote 3 bytes, expected 4. failed.")
           eq_refl).
Defined.

(** * Further properties of the reader *)

Section ReaderMore.

Context {codec : Codec}.

Local Abbreviation Ev := (Event Packet).

Lemma scan_loop_first_turn (fuel : nat) (buffer : Buffer) (st : ScanState)
  (ev : list Ev) (st' : ScanState) :
  scan_loop (S fuel) buffer st = Returned (ev, st') ->
  FirstTurn fuel buffer st ev st'.
Proof.
  intros H. simpl in H.
  destruct (Nat.eqb_spec (iter st) (List.length buffer)) as [E|E].
  - injection H as <- <-. apply AtEnd; auto.
  - unfold scan_step in H.
    destruct (nth_error buffer (iter st)) as [b|] eqn:Hb; [|discriminate].
    destruct (is_sof b) eqn:Hs.
    + destruct (createPacket (skipn (iter st) buffer) (bytes_needed st))
        as [[[packet|] bn] error] eqn:Hc.
      * apply emit_returned_inv in H. destruct H as (ev1 & a & Hr & E1).
        injection E1 as -> ->. eapply Dispatched; eauto.
      * destruct (0 <? bn) eqn:Hbn.
        -- injection H as <- <-. apply Z.ltb_lt in Hbn.
           eapply Waiting; eauto.
        -- apply emit_returned_inv in H. destruct H as (ev1 & a & Hr & E1).
           injection E1 as -> ->. apply Z.ltb_ge in Hbn.
           eapply Refused; eauto.
    + apply emit_returned_inv in H. destruct H as (ev1 & a & Hr & E1).
      injection E1 as -> ->. simpl. eapply Skipped; eauto.
Qed.

(** Where a scan that comes back has stopped: at the end of the buffer, or
    at a start-of-frame byte for which the factory has just asked for more
    bytes. *)
Lemma scan_loop_stops (buffer : Buffer) :
  forall (fuel : nat) (st : ScanState) (ev : list Ev) (st' : ScanState),
    scan_loop fuel buffer st = Returned (ev, st') ->
    iter st' = List.length buffer
    \/ exists b bn error,
         nth_error buffer (iter st') = Some b
         /\ is_sof b = true
         /\ createPacket (skipn (iter st') buffer) bn
            = (None, bytes_needed st', error)
         /\ 0 < bytes_needed st'.
Proof.
  induction fuel as [|fuel IH]; intros st ev st' H; [discriminate|].
  apply scan_loop_first_turn in H.
  destruct H as [E _ ->|b Hb Hs Hr|b p bn e ev1 Hb Hs Hc Hr _
                 |b bn e Hb Hs Hc Hbn _ ->|b bn e ev1 Hb Hs Hc Hbn Hr _].
  - left; assumption.
  - eapply IH; eassumption.
  - eapply IH; eassumption.
  - right. simpl. eauto 8.
  - eapply IH; eassumption.
Qed.

(** The packets of a scan were all made by the factory, each from the rest
    of the buffer at a start-of-frame byte not before the place the scan
    began at, and their frames lie one behind the other before
    [iter_begin]. *)
Lemma scan_loop_dispatches (buffer : Buffer) :
  forall (fuel : nat) (st : ScanState) (ev : list Ev) (st' : ScanState),
    scan_loop fuel buffer st = Returned (ev, st') ->
    (iter_begin st <= iter st)%nat ->
    (iter_begin st + total_frame_bytes ev <= iter_begin st'
     /\ iter_begin st' <= iter st')%nat
    /\ forall packet, In packet (packets_of ev) ->
         exists i b bn bn' error,
           (iter st <= i /\ i + List.length (frame packet) <= iter_begin st')%nat
           /\ nth_error buffer i = Some b
           /\ is_sof b = true
           /\ createPacket (skipn i buffer) bn = (Some packet, bn', error).
Proof.
  unfold total_frame_bytes.
  induction fuel as [|fuel IH]; intros st ev st' H Hle; [discriminate|].
  apply scan_loop_first_turn in H.
  destruct H as [E -> ->|b Hb Hs Hr|b p bn e ev1 Hb Hs Hc Hr ->
                 |b bn e Hb Hs Hc Hbn -> ->|b bn e ev1 Hb Hs Hc Hbn Hr ->].
  - simpl. split; [lia|]. intros packet [].
  - apply IH in Hr; simpl in *; [|lia].
    destruct Hr as [Hn Hp]. split; [lia|].
    intros packet Hin.
    destruct (Hp packet Hin) as (i & b' & bn & bn' & e & Hi & Hrest).
    exists i, b', bn, bn', e. split; [lia|exact Hrest].
  - apply IH in Hr; simpl in *; [|lia].
    destruct Hr as [Hn Hp].
    rewrite !packets_of_app, packets_of_leading. simpl. split; [lia|].
    intros packet [<-|Hin].
    + exists (iter st), b, (bytes_needed st), bn, e.
      split; [lia|auto].
    + destruct (Hp packet Hin) as (i & b' & bn0 & bn' & e' & Hi & Hrest).
      exists i, b', bn0, bn', e'. split; [lia|exact Hrest].
  - simpl. split; [lia|]. intros packet [].
  - apply IH in Hr; simpl in *; [|lia].
    destruct Hr as [Hn Hp]. split; [lia|].
    intros packet Hin.
    destruct (Hp packet Hin) as (i & b' & bn0 & bn' & e' & Hi & Hrest).
    exists i, b', bn0, bn', e'. split; [lia|exact Hrest].
Qed.

(** What [scan_pass] is made of. *)
Lemma scan_pass_inv (buffer : Buffer) (ev : list Ev) (r : PassResult) :
  scan_pass buffer = Returned (ev, r) ->
  exists ev0,
    scan_buffer buffer = Returned (ev0, final r)
    /\ ev = ev0 ++ discard_warning
                     (distance (iter_begin (final r)) (iter (final r)))
    /\ buffer_after r = skipn (iter (final r)) buffer
    /\ needed_after r
       = if Nat.eqb (iter (final r)) (List.length buffer)
         then VESC_MIN_FRAME_SIZE else bytes_needed (final r).
Proof.
  unfold scan_pass. destruct (scan_buffer buffer) as [[ev0 st]| |];
    try discriminate.
  unfold finish_pass. intros H. injection H as <- <-. simpl. eauto.
Qed.

Lemma skipn_nth_error (buffer : Buffer) :
  forall (i : nat) (b : byte),
    nth_error buffer i = Some b -> exists tl, skipn i buffer = b :: tl.
Proof.
  induction buffer as [|x buffer IH]; intros [|i] b H; simpl in *;
    try discriminate.
  - injection H as ->. eauto.
  - eauto.
Qed.

(** X1.  Between a scan pass and the read that follows, the buffer is
    either empty, and then a minimum frame is asked for, or it begins with
    a start-of-frame byte for which the factory has asked for a positive
    number of bytes, and then that number is asked for: the reader keeps
    no byte that is not the beginning of a frame it waits for. *)
Theorem leftover_is_empty_or_candidate (buffer : Buffer) (ev : list Ev)
  (r : PassResult) :
  scan_pass buffer = Returned (ev, r) ->
  (buffer_after r = [] /\ needed_after r = VESC_MIN_FRAME_SIZE)
  \/ (starts_with_sof (buffer_after r) = true
      /\ needed_after r = bytes_needed (final r)
      /\ 0 < needed_after r).
Proof.
  intros H. apply scan_pass_inv in H.
  destruct H as (ev0 & Hs & _ & Hb & Hn).
  apply scan_loop_stops in Hs.
  destruct Hs as [E|(b & bn & e & Hnth & Hsof & _ & Hpos)].
  - left. rewrite Hb, Hn, E, Nat.eqb_refl, skipn_all. auto.
  - right.
    assert (Hlt : (iter (final r) < List.length buffer)%nat)
      by (apply nth_error_Some; congruence).
    destruct (Nat.eqb_spec (iter (final r)) (List.length buffer)); [lia|].
    destruct (skipn_nth_error _ _ _ Hnth) as (tl & Htl).
    rewrite Hb, Hn, Htl. simpl. auto.
Qed.

(** X2.  With a factory that treats [bytes_needed] as an output only, a
    pass over what a pass has left makes no callback, erases nothing and
    asks for the same number of bytes: bytes once scanned and kept are not
    reported again while nothing arrives. *)
Theorem second_pass_is_silent (buffer : Buffer) (ev : list Ev)
  (r : PassResult) :
  bytes_needed_is_output ->
  scan_pass buffer = Returned (ev, r) ->
  scan_phase (buffer_after r)
  = Returned ([], (buffer_after r, needed_after r)).
Proof.
  intros Hout H. apply scan_pass_inv in H.
  destruct H as (ev0 & Hs & _ & Hb & Hn).
  apply scan_loop_stops in Hs.
  destruct Hs as [E|(b & bn & e & Hnth & Hsof & Hc & Hpos)].
  - rewrite Hb, Hn, E, Nat.eqb_refl, skipn_all. reflexivity.
  - assert (Hlt : (iter (final r) < List.length buffer)%nat)
      by (apply nth_error_Some; congruence).
    destruct (Nat.eqb_spec (iter (final r)) (List.length buffer)); [lia|].
    destruct (skipn_nth_error _ _ _ Hnth) as (tl & Htl).
    rewrite <- Hb in Hc, Htl.
    rewrite (Hout _ bn VESC_MIN_FRAME_SIZE) in Hc.
    assert (Hne : buffer_after r <> []) by (rewrite Htl; discriminate).
    assert (Hst : starts_with_sof (buffer_after r) = true)
      by (rewrite Htl; exact Hsof).
    rewrite (scan_phase_pass _ _ _ Hne
               (scan_pass_waiting _ _ _ Hst Hc Hpos)).
    rewrite Hn. reflexivity.
Qed.

(** X3.  Every packet a scan pass dispatches was made by the factory from
    the rest of the buffer at a start-of-frame byte, and the bytes of its
    frame are among those the pass erases. *)
Theorem dispatched_packets_come_from_factory (buffer : Buffer)
  (ev : list Ev) (r : PassResult) (packet : Packet) :
  scan_pass buffer = Returned (ev, r) ->
  In packet (packets_of ev) ->
  exists i b bn bn' error,
    nth_error buffer i = Some b
    /\ is_sof b = true
    /\ createPacket (skipn i buffer) bn = (Some packet, bn', error)
    /\ (i + List.length (frame packet) <= iter (final r))%nat.
Proof.
  intros H Hin. apply scan_pass_inv in H.
  destruct H as (ev0 & Hs & -> & _ & _).
  rewrite packets_of_app, packets_of_discard, app_nil_r in Hin.
  apply scan_loop_dispatches in Hs; [|simpl; lia].
  destruct Hs as [[_ Hle] Hp].
  destruct (Hp packet Hin) as (i & b & bn & bn' & e & Hi & Hnth & Hsof & Hc).
  exists i, b, bn, bn', e. repeat split; auto. lia.
Qed.

(** X4.  The frames of the packets a pass dispatches and the bytes it keeps
    never add up to more than the buffer held: no byte is dispatched twice
    and none is both dispatched and kept. *)
Theorem dispatched_and_kept_fit_the_buffer (buffer : Buffer) (ev : list Ev)
  (r : PassResult) :
  scan_pass buffer = Returned (ev, r) ->
  (total_frame_bytes ev + List.length (buffer_after r)
   <= List.length buffer)%nat.
Proof.
  intros H. apply scan_pass_inv in H.
  destruct H as (ev0 & Hs & -> & Hb & _).
  unfold total_frame_bytes.
  rewrite packets_of_app, packets_of_discard, app_nil_r.
  pose proof (scan_loop_dispatches _ _ _ _ _ Hs) as Hd.
  destruct Hd as [[Hsum Hle] _]; [simpl; lia|].
  unfold total_frame_bytes in Hsum. simpl in Hsum.
  rewrite Hb, length_skipn.
  apply scan_loop_stops in Hs. destruct Hs as [E|(b & _ & _ & Hnth & _)].
  - lia.
  - assert ((iter (final r) < List.length buffer)%nat)
      by (apply nth_error_Some; congruence).
    lia.
Qed.

Lemma refused_markers_no_marker (g : Buffer) :
  forall (rest : Buffer) (bn : Z),
    no_marker g = true -> refused_markers g rest bn = Some ([], bn).
Proof.
  induction g as [|b g IH]; intros rest bn H; simpl in *; auto.
  apply andb_prop in H. destruct H as [Hb Hg].
  apply negb_true_iff in Hb. rewrite Hb. auto.
Qed.

(** X5.  A buffer that is not empty and holds no start-of-frame byte is
    erased whole by one pass, with the one warning that all its bytes are
    discarded; no packet is dispatched, whatever the factory is. *)
Theorem pass_over_noise_discards_all (buffer : Buffer) :
  no_marker buffer = true ->
  buffer <> [] ->
  scan_pass buffer
  = Returned
      ([ErrorEvent (msg_discard (Z.of_nat (List.length buffer)))],
       {| final := {| iter := List.length buffer; iter_begin := 0;
                      bytes_needed := VESC_MIN_FRAME_SIZE |};
          buffer_after := [];
          needed_after := VESC_MIN_FRAME_SIZE |}).
Proof.
  intros Hno Hne.
  assert (Hb : buffer = [] ++ buffer ++ []) by (rewrite app_nil_r; reflexivity).
  pose proof (scan_loop_garbage buffer [] [] buffer scan_start [] _ 1
                Hb eq_refl (refused_markers_no_marker _ _ _ Hno)) as H.
  cbn [app map] in H. rewrite emit_nil in H.
  rewrite scan_loop_end in H by reflexivity.
  unfold scan_pass, scan_buffer.
  rewrite (scan_loop_more_fuel _ _ _ _ H) by lia.
  unfold finish_pass, discard_warning, distance. simpl.
  rewrite Nat.eqb_refl, skipn_all.
  assert (Hpos : (0 <? Z.of_nat (List.length buffer) - 0) = true).
  { apply Z.ltb_lt. destruct buffer; [congruence|simpl; lia]. }
  rewrite Hpos, Z.sub_0_r. reflexivity.
Qed.

(** The first half of an iteration comes back and, the minimum frame size
    being positive, asks for a positive number of bytes. *)
Lemma scan_phase_returns (buffer : Buffer) :
  frames_fit ->
  exists ev buffer' bn,
    scan_phase buffer = Returned (ev, (buffer', bn))
    /\ (0 < VESC_MIN_FRAME_SIZE -> 0 < bn).
Proof.
  intros Hfit. destruct buffer as [|x buffer].
  - simpl. eauto 6.
  - destruct (scan_loop_returns (x :: buffer) Hfit
                (S (List.length (x :: buffer))) scan_start)
      as (ev & st & Hr & Hi & Hn); [simpl; lia|lia|].
    unfold scan_phase, scan_pass, scan_buffer. rewrite Hr.
    unfold finish_pass. cbn [buffer_after needed_after].
    do 3 eexists. split; [reflexivity|]. intros Hmin.
    destruct (Nat.eqb_spec (iter st) (List.length (x :: buffer))); [lia|].
    destruct Hn; [contradiction|assumption].
Qed.

(** X6.  With a factory that keeps its promise about frame lengths and a
    positive minimum frame size, the read of every iteration is asked for
    at least one byte and at most the 4096 bytes [bufferRx] holds. *)
Theorem read_request_is_within_bufferRx (buffer : Buffer) :
  frames_fit ->
  0 < VESC_MIN_FRAME_SIZE ->
  exists ev buffer' bn,
    scan_phase buffer = Returned (ev, (buffer', bn))
    /\ 1 <= bytes_to_read bn <= 4096.
Proof.
  intros Hfit Hmin.
  destruct (scan_phase_returns buffer Hfit) as (ev & b' & bn & H & Hbn).
  exists ev, b', bn. split; [assumption|].
  specialize (Hbn Hmin). unfold bytes_to_read. lia.
Qed.

(** X7.  With a factory that keeps its promise about frame lengths the
    reader goes through every iteration, whatever the reads bring: it is
    never left in a scan without end or past the end of the buffer. *)
Theorem rxThread_survives_any_input (reads : list (Z -> ReadResult)) :
  frames_fit ->
  forall buffer : Buffer,
    exists ev buffer', rxThread buffer reads = Returned (ev, buffer').
Proof.
  intros Hfit. induction reads as [|read reads IH]; intros buffer.
  - simpl. eauto.
  - destruct (scan_phase_returns buffer Hfit) as (ev & b' & bn & H & _).
    simpl. unfold rx_iteration. rewrite H.
    destruct (read_phase b' bn read) as [ev' b2].
    destruct (IH b2) as (ev2 & b3 & Hr). rewrite Hr. simpl. eauto.
Qed.

Lemma idle_iteration_quiet (read : Z -> ReadResult) (bn : Z) :
  idle read ->
  rr_bytes (read (bytes_to_read bn)) = []
  /\ serial_error_report (rr_ec (read (bytes_to_read bn)))
     = @nil Ev.
Proof.
  intros Hidle. destruct (Hidle (bytes_to_read bn)) as [Hb He].
  split; [assumption|]. unfold serial_error_report.
  apply Z.ltb_ge in He. rewrite He. reflexivity.
Qed.

(** X8.  On a silent line (every read brings nothing and reports no error)
    a reader whose buffer is empty makes no callback at all and its buffer
    stays empty, for as many iterations as it runs. *)
Theorem idle_line_is_silent (reads : list (Z -> ReadResult)) :
  Forall idle reads ->
  rxThread [] reads = Returned ([], []).
Proof.
  induction 1 as [|read reads Hidle _ IH]; [reflexivity|].
  cbn [rxThread]. unfold rx_iteration. cbn [scan_phase].
  rewrite read_phase_empty.
  destruct (idle_iteration_quiet read VESC_MIN_FRAME_SIZE Hidle) as [-> ->].
  rewrite IH. reflexivity.
Qed.

(** X9.  While the line stays silent behind the beginning of a frame (a
    buffer that begins with a start-of-frame byte and for which the
    factory asks for more bytes), every iteration makes the read-timeout
    report, once, and nothing else, and the buffer is kept as it is. *)
Theorem stalled_frame_warns_every_iteration (partial : Buffer) (k : Z)
  (error : string) (reads : list (Z -> ReadResult)) :
  starts_with_sof partial = true ->
  createPacket partial VESC_MIN_FRAME_SIZE = (None, k, error) ->
  0 < k ->
  Forall idle reads ->
  rxThread partial reads
  = Returned (repeat (ErrorEvent msg_timeout) (List.length reads), partial).
Proof.
  intros Hs Hc Hk Hall.
  assert (Hne : partial <> []) by (destruct partial; [discriminate|congruence]).
  induction Hall as [|read reads Hidle _ IH]; [reflexivity|].
  cbn [rxThread]. unfold rx_iteration.
  rewrite (scan_phase_pass _ _ _ Hne (scan_pass_waiting _ _ _ Hs Hc Hk)).
  cbn [buffer_after needed_after].
  unfold read_phase, timeout_report.
  destruct (idle_iteration_quiet read k Hidle) as [-> ->].
  rewrite app_nil_r. apply Z.ltb_lt in Hk. rewrite Hk.
  destruct partial as [|b partial]; [congruence|].
  simpl. rewrite IH. reflexivity.
Qed.

(** X20.  The buffer an iteration leaves is the buffer it found, without
    some bytes at its front, followed by the bytes its read brought: bytes
    leave the buffer only at the front and enter it only at the back, also
    when the read reports an error. *)
Theorem iteration_keeps_byte_order (buffer buffer' : Buffer) (ev : list Ev)
  (read : Z -> ReadResult) :
  rx_iteration buffer read = Returned (ev, buffer') ->
  exists erased bn,
    (erased <= List.length buffer)%nat
    /\ buffer'
       = skipn erased buffer ++ rr_bytes (read (bytes_to_read bn)).
Proof.
  unfold rx_iteration, read_phase.
  destruct buffer as [|x buffer].
  - simpl. intros H. injection H as _ <-.
    exists 0%nat, VESC_MIN_FRAME_SIZE. split; [simpl; lia|reflexivity].
  - unfold scan_phase.
    destruct (scan_pass (x :: buffer)) as [[ev0 r]| |] eqn:Hp;
      try discriminate.
    intros H. injection H as _ <-.
    pose proof (scan_pass_inv _ _ _ Hp) as (ev1 & Hs & _ & Hb & _).
    exists (iter (final r)), (needed_after r). split.
    + apply scan_loop_stops in Hs.
      destruct Hs as [E|(b & _ & _ & Hnth & _)]; [lia|].
      apply Nat.lt_le_incl, nth_error_Some. congruence.
    + rewrite Hb. reflexivity.
Qed.

End ReaderMore.

(** * Further properties of the lifecycle calls *)

Section InterfaceFacts.

Context {codec : Codec} {text : ExceptionText} {device : SerialDevice}
        {commands : Commands} {closing : ClosingDevice}
        {threads : ThreadLibrary}.

(** The four options of [connect], in the order they are set. *)
Local Abbreviation link_options :=
  [baud_rate 115200; flow_control flow_none; parity parity_none;
   stop_bits stop_one].

(** The first option of a list that the device refuses, with the text of
    the exception and the options set before it. *)
Lemma open_and_configure_cases (port : string) (sp : SerialPort) :
  match open_throws port with
  | Some w =>
      open_and_configure port sp
      = (Throw (SerialException
                  (c_str ("Failed to open the serial port " ++ port
                            ++ " to the VESC. " ++ w))),
         sp)
  | None =>
      (Forall (fun o => set_option_throws o = None) link_options
       /\ open_and_configure port sp
          = (Ok tt, {| is_open := true; options := link_options;
                       writes := writes sp |}))
      \/ exists w done,
           Exists (fun o => set_option_throws o = Some w) link_options
           /\ open_and_configure port sp
              = (Throw (SerialException
                          (c_str ("Failed to open the serial port " ++ port
                                    ++ " to the VESC. " ++ w))),
                 {| is_open := true; options := done;
                    writes := writes sp |})
  end.
Proof.
  unfold open_and_configure, try_catch, bind, open, set_option, throw.
  destruct (open_throws port) as [w|]; [reflexivity|].
  destruct (set_option_throws (baud_rate 115200)) as [w|] eqn:H1.
  { right. exists w, []. split; [|reflexivity]. constructor. exact H1. }
  destruct (set_option_throws (flow_control flow_none)) as [w|] eqn:H2.
  { right. exists w, [baud_rate 115200]. split; [|reflexivity].
    do 1 apply Exists_cons_tl. constructor. exact H2. }
  destruct (set_option_throws (parity parity_none)) as [w|] eqn:H3.
  { right. exists w, [baud_rate 115200; flow_control flow_none].
    split; [|reflexivity].
    do 2 apply Exists_cons_tl. constructor. exact H3. }
  destruct (set_option_throws (stop_bits stop_one)) as [w|] eqn:H4.
  { right.
    exists w, [baud_rate 115200; flow_control flow_none; parity parity_none].
    split; [|reflexivity].
    do 3 apply Exists_cons_tl. constructor. exact H4. }
  left. split; [|reflexivity]. repeat constructor; assumption.
Qed.

(** The four ways [connect] can go. *)
Lemma connect_cases (port : string) (impl : Impl) :
  (isConnected impl = true
   /\ connect port impl
      = (Throw (SerialException "Already connected to serial port."), impl))
  \/ (isConnected impl = false
      /\ exists w,
           open_throws port = Some w
           /\ fst (connect port impl)
              = Throw (SerialException
                         (c_str
                            ("Failed to open the serial port " ++ port
                               ++ " to the VESC. " ++ w)))
           /\ rx_thread_ (snd (connect port impl)) = rx_thread_ impl
           /\ rx_thread_run_ (snd (connect port impl)) = rx_thread_run_ impl
           /\ isConnected (snd (connect port impl)) = false)
  \/ (isConnected impl = false
      /\ open_throws port = None
      /\ Forall (fun o => set_option_throws o = None) link_options
      /\ connect port impl
         = (Ok tt,
            {| rx_thread_ := Some RxThread; rx_thread_run_ := true;
               serial_port_ :=
                 {| is_open := true; options := link_options;
                    writes := writes (serial_port_ impl) |};
               handled := handled impl |}))
  \/ (isConnected impl = false
      /\ open_throws port = None
      /\ exists w,
           Exists (fun o => set_option_throws o = Some w) link_options
           /\ fst (connect port impl)
              = Throw (SerialException
                         (c_str
                            ("Failed to open the serial port " ++ port
                               ++ " to the VESC. " ++ w)))
           /\ rx_thread_ (snd (connect port impl)) = rx_thread_ impl
           /\ rx_thread_run_ (snd (connect port impl)) = rx_thread_run_ impl
           /\ isConnected (snd (connect port impl)) = true).
Proof.
  unfold connect.
  pose proof (open_and_configure_cases port (serial_port_ impl)) as H.
  destruct (isConnected impl) eqn:Hc; [left; auto|right].
  destruct (open_throws port) as [w|] eqn:Ho.
  { left. split; [reflexivity|]. exists w. rewrite H. simpl. auto 6. }
  right. destruct H as [[Hall ->]|(w & done & Hex & ->)].
  - left. auto.
  - right. split; [reflexivity|]. split; [reflexivity|].
    exists w. simpl. auto 6.
Qed.

(** X10.  [connect] returns without an exception exactly when the
    interface is not connected, the device opens and takes each of the
    four options; the port is then open with exactly these options, in the
    order baud rate, flow control, parity, stop bits, the reader thread is
    started and the run flag is set. *)
Theorem connect_succeeds_iff (port : string) (impl : Impl) :
  (fst (connect port impl) = Ok tt
   <-> isConnected impl = false
       /\ open_throws port = None
       /\ Forall (fun o => set_option_throws o = None) link_options)
  /\ (fst (connect port impl) = Ok tt ->
      snd (connect port impl)
      = {| rx_thread_ := Some RxThread; rx_thread_run_ := true;
           serial_port_ :=
             {| is_open := true; options := link_options;
                writes := writes (serial_port_ impl) |};
           handled := handled impl |}).
Proof.
  destruct (connect_cases port impl)
    as [(Hc & H)|[(Hc & w & Ho & H & _)|[(Hc & Ho & Hall & H)
       |(Hc & Ho & w & Hex & H & _)]]]; rewrite H; simpl.
  - split; [split|]; [discriminate|intros (? & _); congruence|discriminate].
  - split; [split|]; [discriminate|intros (_ & ? & _); congruence
                      |discriminate].
  - split; [split|]; auto.
  - split; [split|]; [discriminate| |discriminate].
    intros (_ & _ & Hall). exfalso.
    apply Exists_exists in Hex. destruct Hex as (o & Hin & Ho').
    rewrite Forall_forall in Hall. specialize (Hall o Hin). congruence.
Qed.

(** X11.  Every exception of [connect] is a [SerialException]; the thread
    pointer and the run flag are as before.  On a connected interface it
    says so and nothing changes.  Otherwise the text names the port and
    ends with the [what()] of the failed call, cut as a C string at the
    first NUL if the port name holds one, and the port is left closed when
    the open failed, but open when an option was refused. *)
Theorem connect_failure_cases (port : string) (impl : Impl)
  (e : exception) :
  fst (connect port impl) = Throw e ->
  rx_thread_ (snd (connect port impl)) = rx_thread_ impl
  /\ rx_thread_run_ (snd (connect port impl)) = rx_thread_run_ impl
  /\ ((isConnected impl = true
       /\ e = SerialException "Already connected to serial port."
       /\ snd (connect port impl) = impl)
      \/ (isConnected impl = false
          /\ exists w,
               e = SerialException
                     (c_str ("Failed to open the serial port " ++ port
                               ++ " to the VESC. " ++ w))
               /\ ((open_throws port = Some w
                    /\ isConnected (snd (connect port impl)) = false)
                   \/ (open_throws port = None
                       /\ Exists (fun o => set_option_throws o = Some w)
                            link_options
                       /\ isConnected (snd (connect port impl)) = true)))).
Proof.
  destruct (connect_cases port impl)
    as [(Hc & H)|[(Hc & w & Ho & H & Ht & Hr & Hi)|[(Hc & Ho & Hall & H)
       |(Hc & Ho & w & Hex & H & Ht & Hr & Hi)]]].
  - rewrite H. simpl. intros He. injection He as <-. auto 6.
  - rewrite H. intros He. injection He as <-.
    split; [assumption|]. split; [assumption|]. right.
    split; [assumption|]. exists w. auto.
  - rewrite H. discriminate.
  - rewrite H. intros He. injection He as <-.
    split; [assumption|]. split; [assumption|]. right.
    split; [assumption|]. exists w. split; [reflexivity|]. right. auto.
Qed.

(** X12.  Once a [connect] has opened the port, every later [connect] is
    refused as already connected and changes nothing, whether the first
    one returned or threw because an option was refused. *)
Theorem connect_refused_once_port_is_open (port port' : string)
  (impl : Impl) :
  isConnected impl = false ->
  open_throws port = None ->
  connect port' (snd (connect port impl))
  = (Throw (SerialException "Already connected to serial port."),
     snd (connect port impl)).
Proof.
  intros Hc Ho.
  assert (Hopen : isConnected (snd (connect port impl)) = true).
  { destruct (connect_cases port impl)
      as [(Hc' & _)|[(_ & w & Ho' & _)|[(_ & _ & _ & H)
         |(_ & _ & w & _ & _ & _ & _ & Hi)]]]; try congruence.
    rewrite H. reflexivity. }
  unfold connect at 1. rewrite Hopen. reflexivity.
Qed.

(** X13.  Whether it returns or throws, [send] hands the frame of the
    packet to [write_some] exactly once and touches nothing else: the
    port stays open or closed as it was, with the same options, and the
    thread pointer, the run flag and the callbacks made are unchanged. *)
Theorem send_only_writes_once (packet : Packet) (impl : Impl) :
  snd (send packet impl)
  = {| rx_thread_ := rx_thread_ impl;
       rx_thread_run_ := rx_thread_run_ impl;
       serial_port_ :=
         {| is_open := is_open (serial_port_ impl);
            options := options (serial_port_ impl);
            writes := writes (serial_port_ impl) ++ [frame packet] |};
       handled := handled impl |}.
Proof.
  unfold send.
  pose proof (write_frame_cases (frame packet) (serial_port_ impl)) as H.
  cbv zeta in H.
  destruct (write_some_takes (frame packet)) as [written|w].
  - destruct (Nat.eqb written (List.length (frame packet)));
      rewrite H; reflexivity.
  - rewrite H. reflexivity.
Qed.

(** X14.  [send] returns without an exception exactly when [write_some]
    takes as many bytes as the frame has. *)
Theorem send_succeeds_iff (packet : Packet) (impl : Impl) :
  fst (send packet impl) = Ok tt
  <-> write_some_takes (frame packet)
      = inl (List.length (frame packet)).
Proof.
  unfold send.
  pose proof (write_frame_cases (frame packet) (serial_port_ impl)) as H.
  cbv zeta in H.
  destruct (write_some_takes (frame packet)) as [written|w].
  - destruct (Nat.eqb_spec written (List.length (frame packet))) as [E|E];
      rewrite H; simpl.
    + split; [intros _; congruence|reflexivity].
    + split; [discriminate|]. intros He. injection He as He. contradiction.
  - rewrite H. simpl. split; discriminate.
Qed.

(** The interface while [disconnect] brings the reader down. *)
Local Abbreviation stopping impl :=
  {| rx_thread_ := rx_thread_ impl; rx_thread_run_ := false;
     serial_port_ :=
       {| is_open := is_open (serial_port_ impl);
          options := options (serial_port_ impl);
          writes := writes (serial_port_ impl)
                      ++ [frame VescPacketRequestFWVersion] |};
     handled := handled impl |}.

(** X15.  When the write of the firmware-version request does not go
    through in full, [disconnect] throws the exception of [send] and stops
    there: the run flag is cleared and the request was handed to the port,
    but the thread is not joined and the port is not closed, so the
    interface still counts as connected. *)
Theorem disconnect_stops_at_failed_wake_up (impl : Impl)
  (last : list (Event Packet)) :
  isConnected impl = true ->
  write_some_takes (frame VescPacketRequestFWVersion)
  <> inl (List.length (frame VescPacketRequestFWVersion)) ->
  (exists description,
     disconnect impl last
     = Returned (Throw (SerialException description), stopping impl))
  /\ isConnected (stopping impl) = true.
Proof.
  intros Hc Hw. split; [|exact Hc].
  unfold disconnect, requestFWVersion, send. rewrite Hc.
  cbn [serial_port_ rx_thread_ rx_thread_run_ handled].
  pose proof (write_frame_cases (frame VescPacketRequestFWVersion)
                (serial_port_ impl)) as H.
  cbv zeta in H.
  destruct (write_some_takes (frame VescPacketRequestFWVersion))
    as [written|w].
  - destruct (Nat.eqb_spec written
                (List.length (frame VescPacketRequestFWVersion))) as [E|E].
    + congruence.
    + rewrite H. eauto.
  - rewrite H. eauto.
Qed.

(** The interface after a [disconnect] that went through, the reader
    having made the callbacks [last] on its way out. *)
Local Abbreviation disconnected impl last :=
  {| rx_thread_ := Some JoinedThread; rx_thread_run_ := false;
     serial_port_ :=
       {| is_open := false; options := [];
          writes := writes (serial_port_ impl)
                      ++ [frame VescPacketRequestFWVersion] |};
     handled := handled impl ++ last |}.

Lemma disconnect_goes_through (impl : Impl) (last : list (Event Packet)) :
  isConnected impl = true ->
  rx_thread_ impl = Some RxThread ->
  write_some_takes (frame VescPacketRequestFWVersion)
  = inl (List.length (frame VescPacketRequestFWVersion)) ->
  disconnect impl last
  = Returned
      (match close_throws with
       | Some w => Throw (std_exception w)
       | None => Ok tt
       end,
       disconnected impl last).
Proof.
  intros Hc Ht Hw.
  unfold disconnect, requestFWVersion, send. rewrite Hc.
  cbn [serial_port_ rx_thread_ rx_thread_run_ handled].
  pose proof (write_frame_cases (frame VescPacketRequestFWVersion)
                (serial_port_ impl)) as H.
  cbv zeta in H. rewrite Hw, Nat.eqb_refl in H. rewrite H.
  cbn [serial_port_ rx_thread_ rx_thread_run_ handled]. rewrite Ht.
  unfold close. cbn [writes].
  destruct close_throws; reflexivity.
Qed.

(** When the pointer holds a thread object that was joined before, the
    [join()] throws after the run flag was cleared and the request sent,
    and the port is left open. *)
Lemma disconnect_joined_thread_throws (impl : Impl)
  (last : list (Event Packet)) :
  isConnected impl = true ->
  rx_thread_ impl = Some JoinedThread ->
  write_some_takes (frame VescPacketRequestFWVersion)
  = inl (List.length (frame VescPacketRequestFWVersion)) ->
  disconnect impl last
  = Returned (Throw (std_exception join_throws_what), stopping impl).
Proof.
  intros Hc Ht Hw.
  unfold disconnect, requestFWVersion, send. rewrite Hc.
  cbn [serial_port_ rx_thread_ rx_thread_run_ handled].
  pose proof (write_frame_cases (frame VescPacketRequestFWVersion)
                (serial_port_ impl)) as H.
  cbv zeta in H. rewrite Hw, Nat.eqb_refl in H. rewrite H.
  cbn [serial_port_ rx_thread_ rx_thread_run_ handled]. rewrite Ht.
  reflexivity.
Qed.

(** X16.  On a connected interface whose reader thread is running, when the
    write of the firmware-version request goes through, [disconnect]
    clears the run flag, sends that one request, joins the thread and
    closes the port; an exception of [close] reaches the caller, the port
    being closed all the same.  The pointer then holds the joined thread
    object, and a second [disconnect] does nothing. *)
Theorem disconnect_closes_the_port (impl : Impl)
  (last last' : list (Event Packet)) :
  isConnected impl = true ->
  rx_thread_ impl = Some RxThread ->
  write_some_takes (frame VescPacketRequestFWVersion)
  = inl (List.length (frame VescPacketRequestFWVersion)) ->
  disconnect impl last
  = Returned
      (match close_throws with
       | Some w => Throw (std_exception w)
       | None => Ok tt
       end,
       disconnected impl last)
  /\ isConnected (disconnected impl last) = false
  /\ disconnect (disconnected impl last) last'
     = Returned (Ok tt, disconnected impl last).
Proof.
  intros Hc Ht Hw. split; [|split; reflexivity].
  eapply disconnect_goes_through; eassumption.
Qed.

(** X17.  With a device on which every call succeeds, [connect] followed by
    [disconnect] leaves the interface disconnected, with the run flag
    cleared and the firmware-version request as the only write, and a new
    [connect] succeeds again. *)
Theorem connect_disconnect_connect (port : string) (impl : Impl)
  (last : list (Event Packet)) :
  isConnected impl = false ->
  open_throws port = None ->
  Forall (fun o => set_option_throws o = None) link_options ->
  write_some_takes (frame VescPacketRequestFWVersion)
  = inl (List.length (frame VescPacketRequestFWVersion)) ->
  close_throws = None ->
  exists c d,
    connect port impl = (Ok tt, c)
    /\ disconnect c last = Returned (Ok tt, d)
    /\ isConnected d = false
    /\ rx_thread_run_ d = false
    /\ writes (serial_port_ d)
       = writes (serial_port_ impl) ++ [frame VescPacketRequestFWVersion]
    /\ fst (connect port d) = Ok tt.
Proof.
  intros Hc Ho Hall Hw Hcl.
  assert (Hok : forall i : Impl,
             isConnected i = false ->
             connect port i
             = (Ok tt,
                {| rx_thread_ := Some RxThread; rx_thread_run_ := true;
                   serial_port_ :=
                     {| is_open := true; options := link_options;
                        writes := writes (serial_port_ i) |};
                   handled := handled i |})).
  { intros i Hi.
    destruct (connect_cases port i)
      as [(Hc' & _)|[(_ & w & Ho' & _)|[(_ & _ & _ & H)
         |(_ & _ & w & Hex & _)]]]; try congruence.
    exfalso. apply Exists_exists in Hex. destruct Hex as (o & Hin & Ho').
    rewrite Forall_forall in Hall. specialize (Hall o Hin). congruence. }
  do 2 eexists. split; [apply Hok; exact Hc|]. split.
  - rewrite disconnect_goes_through; rewrite ?Hcl; auto.
  - cbn [isConnected serial_port_ is_open rx_thread_run_ writes].
    repeat split. rewrite Hok; reflexivity.
Qed.

(** X18.  After a [connect] on a fresh interface that opened the port and
    threw because an option was refused, a [disconnect] whose write goes
    through reaches [rx_thread_->join()] with a null thread pointer. *)
Theorem disconnect_after_failed_connect_is_undefined (port : string)
  (impl : Impl) (e : exception) (last : list (Event Packet)) :
  isConnected impl = false ->
  rx_thread_ impl = None ->
  open_throws port = None ->
  fst (connect port impl) = Throw e ->
  write_some_takes (frame VescPacketRequestFWVersion)
  = inl (List.length (frame VescPacketRequestFWVersion)) ->
  disconnect (snd (connect port impl)) last = Undefined.
Proof.
  intros Hc Ht Ho He Hw.
  assert (Hstate : rx_thread_ (snd (connect port impl)) = rx_thread_ impl
                   /\ isConnected (snd (connect port impl)) = true).
  { destruct (connect_cases port impl)
      as [(Hc' & _)|[(_ & w & Ho' & _)|[(_ & _ & _ & H)
         |(_ & _ & w & _ & _ & Hth & _ & Hi)]]]; try congruence.
    - rewrite H in He. discriminate.
    - auto. }
  destruct Hstate as [Hth Hopen].
  unfold disconnect, requestFWVersion, send. rewrite Hopen.
  cbn [serial_port_ rx_thread_ rx_thread_run_ handled].
  pose proof (write_frame_cases (frame VescPacketRequestFWVersion)
                (serial_port_ (snd (connect port impl)))) as H.
  cbv zeta in H. rewrite Hw, Nat.eqb_refl in H. rewrite H.
  cbn [serial_port_ rx_thread_ rx_thread_run_ handled].
  rewrite Hth, Ht. reflexivity.
Qed.

(** X19.  An interface that its constructor has built without an exception
    is connected exactly when it was given a port name that is not empty,
    and then its reader thread is started and the run flag set; with an
    empty name the constructor never throws and leaves the port alone. *)
Theorem constructor_connects_iff_port_named (port : string) (run : bool)
  (impl : Impl) :
  VescInterface port run = (Ok tt, impl) ->
  VescInterface "" run = (Ok tt, new_Impl run)
  /\ (isConnected impl = true <-> port <> "")
  /\ (isConnected impl = true ->
      rx_thread_ impl = Some RxThread /\ rx_thread_run_ impl = true).
Proof.
  intros H. split; [reflexivity|].
  destruct port as [|a port].
  - simpl in H. injection H as <-. simpl.
    split; [split; [discriminate|congruence]|discriminate].
  - cbn [VescInterface] in H.
    destruct (connect_cases (String a port) (new_Impl run))
      as [(Hc & _)|[(_ & w & _ & Hf & _)|[(_ & _ & _ & Hok)
         |(_ & _ & w & _ & Hf & _)]]];
      [discriminate Hc|rewrite H in Hf; discriminate Hf|
       |rewrite H in Hf; discriminate Hf].
    rewrite H in Hok. injection Hok as ->.
    simpl. split; [split; [discriminate|reflexivity]|auto].
Qed.

End InterfaceFacts.

(** * The reader along the byte stream *)

Section ReaderOnStream.

Context {codec : Codec}.

Local Abbreviation Ev := (Event Packet).

(** ** Packets in the order of their frames *)

Lemma decoded_lo_le_hi (stream : Buffer) (lo hi : nat)
  (packets : list Packet) :
  decoded_in_order stream lo packets hi -> (lo <= hi)%nat.
Proof. induction 1; lia. Qed.

Lemma decoded_from_earlier (stream : Buffer) (lo lo' hi : nat)
  (packets : list Packet) :
  (lo' <= lo)%nat ->
  decoded_in_order stream lo packets hi ->
  decoded_in_order stream lo' packets hi.
Proof.
  intros Hle H.
  destruct H as [lo hi H|lo hi a m b p ps bn bn' e Ha Hn Hs Hc H].
  - apply order_nil. lia.
  - apply (order_cons _ _ _ a m b p ps bn bn' e); auto. lia.
Qed.

Lemma decoded_app (stream : Buffer) (lo mid hi : nat)
  (packets1 packets2 : list Packet) :
  decoded_in_order stream lo packets1 mid ->
  decoded_in_order stream mid packets2 hi ->
  decoded_in_order stream lo (packets1 ++ packets2) hi.
Proof.
  induction 1 as [lo mid Hle|lo mid a m b p ps bn bn' e Hle Hn Hs Hc H IH];
    intros H2; simpl.
  - eapply decoded_from_earlier; eassumption.
  - eapply order_cons; eauto.
Qed.

(** The packets of a scan, from the place it began at to the place it
    stopped at. *)
Lemma scan_loop_in_order (buffer : Buffer) :
  forall (fuel : nat) (st : ScanState) (ev : list Ev) (st' : ScanState),
    scan_loop fuel buffer st = Returned (ev, st') ->
    decoded_in_order buffer (iter st) (packets_of ev) (iter st').
Proof.
  induction fuel as [|fuel IH]; intros st ev st' H; [discriminate|].
  apply scan_loop_first_turn in H.
  destruct H as [E -> ->|b Hb Hs Hr|b p bn e ev1 Hb Hs Hc Hr ->
                 |b bn e Hb Hs Hc Hbn -> ->|b bn e ev1 Hb Hs Hc Hbn Hr ->].
  - apply order_nil. lia.
  - apply IH in Hr. simpl in Hr.
    eapply decoded_from_earlier; [|exact Hr]. lia.
  - apply IH in Hr. simpl in Hr.
    rewrite !packets_of_app, packets_of_leading. simpl.
    apply (order_cons buffer (iter st) (iter st') (iter st)
             (List.length (skipn (iter st) buffer)) b p (packets_of ev1)
             (bytes_needed st) bn e); auto.
    rewrite firstn_all. exact Hc.
  - apply order_nil. simpl. lia.
  - apply IH in Hr. simpl in Hr.
    eapply decoded_from_earlier; [|exact Hr]. lia.
Qed.

Lemma skipn_past_front (front rest : Buffer) (a : nat) :
  skipn (List.length front + a) (front ++ rest) = skipn a rest.
Proof. induction front as [|x front IH]; simpl; auto. Qed.

Lemma nth_error_past_front (front rest : Buffer) (a : nat) :
  nth_error (front ++ rest) (List.length front + a) = nth_error rest a.
Proof. induction front as [|x front IH]; simpl; auto. Qed.

(** A window of a buffer is a window of every stream the buffer is a part
    of. *)
Lemma window_in_context (buffer behind : Buffer) (a m : nat) :
  (a <= List.length buffer)%nat ->
  exists m',
    firstn m' (skipn a (buffer ++ behind)) = firstn m (skipn a buffer).
Proof.
  intros Ha. exists (Nat.min m (List.length (skipn a buffer))).
  rewrite skipn_app.
  replace (a - List.length buffer)%nat with 0%nat by lia. simpl.
  rewrite firstn_app.
  replace (Nat.min m (List.length (skipn a buffer))
           - List.length (skipn a buffer))%nat with 0%nat by lia.
  simpl. rewrite app_nil_r.
  destruct (Nat.le_ge_cases m (List.length (skipn a buffer))) as [H|H].
  - rewrite Nat.min_l by assumption. reflexivity.
  - rewrite Nat.min_r by assumption.
    rewrite firstn_all, firstn_all2 by assumption. reflexivity.
Qed.

Lemma decoded_in_context (buffer : Buffer) (lo hi : nat)
  (packets : list Packet) :
  decoded_in_order buffer lo packets hi ->
  forall front behind : Buffer,
    decoded_in_order (front ++ buffer ++ behind)
      (List.length front + lo) packets (List.length front + hi).
Proof.
  induction 1 as [lo hi Hle|lo hi a m b p ps bn bn' e Hle Hn Hs Hc H IH];
    intros front behind.
  - apply order_nil. lia.
  - assert (Ha : (a < List.length buffer)%nat)
      by (apply nth_error_Some; congruence).
    destruct (window_in_context buffer behind a m) as (m' & Hm'); [lia|].
    apply (order_cons _ _ _ (List.length front + a) m' b p ps bn bn' e).
    + lia.
    + rewrite nth_error_past_front, nth_error_app1 by assumption.
      exact Hn.
    + exact Hs.
    + rewrite skipn_past_front, Hm'. exact Hc.
    + rewrite <- Nat.add_assoc. apply IH.
Qed.

(** The first half of an iteration erases a front of the buffer and has
    decoded its packets in order inside that front. *)
Lemma scan_phase_in_order (buffer buffer1 : Buffer) (ev : list Ev)
  (bn : Z) :
  scan_phase buffer = Returned (ev, (buffer1, bn)) ->
  exists i,
    (i <= List.length buffer)%nat
    /\ buffer1 = skipn i buffer
    /\ decoded_in_order buffer 0 (packets_of ev) i.
Proof.
  destruct buffer as [|x buffer].
  - simpl. intros H. injection H as <- <- _.
    exists 0%nat. repeat split; auto. apply order_nil. lia.
  - unfold scan_phase.
    destruct (scan_pass (x :: buffer)) as [[ev0 r]| |] eqn:Hp;
      try discriminate.
    intros H. injection H as <- <- _.
    pose proof (scan_pass_inv _ _ _ Hp) as (ev1 & Hs & -> & Hb & _).
    exists (iter (final r)). split; [|split].
    + apply scan_loop_stops in Hs.
      destruct Hs as [E|(b & _ & _ & Hnth & _)]; [lia|].
      apply Nat.lt_le_incl, nth_error_Some. congruence.
    + exact Hb.
    + rewrite packets_of_app, packets_of_discard, app_nil_r.
      apply scan_loop_in_order in Hs. exact Hs.
Qed.

Lemma packets_of_read_phase (buffer : Buffer) (bn : Z)
  (read : Z -> ReadResult) :
  packets_of (fst (read_phase buffer bn read)) = @nil Packet.
Proof.
  unfold read_phase, serial_error_report, timeout_report. simpl.
  rewrite packets_of_app.
  destruct (0 <? ec_value _); destruct (_ && _ && _); reflexivity.
Qed.

(** Along the bytes of a run (those of the buffer it began with, then
    those its reads brought) the packets are dispatched in the order of
    the places they were decoded at, each at or behind the end of the
    frame before it, and all inside the bytes the run has erased. *)
Lemma rxThread_in_order (reads : list (Z -> ReadResult)) :
  forall (buffer buffer' front : Buffer) (ev : list Ev),
    rxThread buffer reads = Returned (ev, buffer') ->
    exists erased,
      front ++ buffer ++ inflow buffer reads = erased ++ buffer'
      /\ (List.length front <= List.length erased)%nat
      /\ decoded_in_order (front ++ buffer ++ inflow buffer reads)
           (List.length front) (packets_of ev) (List.length erased).
Proof.
  induction reads as [|read reads IH]; intros buffer buffer' front ev H.
  - simpl in H. injection H as <- <-. simpl. rewrite app_nil_r.
    exists front. repeat split; auto. apply order_nil. lia.
  - cbn [rxThread inflow] in *. unfold rx_iteration in H.
    destruct (scan_phase buffer) as [[ev1 [buffer1 bn]]| |] eqn:Hp;
      try discriminate.
    pose proof (packets_of_read_phase buffer1 bn read) as Hq.
    set (bytes := rr_bytes (read (bytes_to_read bn))).
    assert (Hb2 : snd (read_phase buffer1 bn read) = buffer1 ++ bytes)
      by reflexivity.
    destruct (read_phase buffer1 bn read) as [ev' buffer2].
    cbn [fst snd] in Hq, Hb2. subst buffer2.
    apply emit_returned_inv in H. destruct H as (ev2 & b & Hr & E).
    injection E as -> ->.
    destruct (scan_phase_in_order _ _ _ _ Hp) as (i & Hi & -> & Hd).
    destruct (IH _ _ (front ++ firstn i buffer) _ Hr)
      as (erased & Hsplit & Hlen & Hd2).
    assert (Hstream :
              front ++ buffer ++ bytes ++ inflow (skipn i buffer ++ bytes) reads
              = (front ++ firstn i buffer)
                  ++ (skipn i buffer ++ bytes)
                  ++ inflow (skipn i buffer ++ bytes) reads).
    { rewrite <- (firstn_skipn i buffer) at 1.
      rewrite <- !app_assoc. reflexivity. }
    rewrite Hstream. exists erased. split; [exact Hsplit|].
    rewrite length_app, length_firstn, Nat.min_l in Hlen, Hd2 by assumption.
    split; [lia|].
    rewrite !packets_of_app, Hq, app_nil_r.
    eapply decoded_app; [|exact Hd2].
    rewrite <- Hstream.
    pose proof (decoded_in_context _ _ _ _ Hd front
                  (bytes ++ inflow (skipn i buffer ++ bytes) reads)) as Hc.
    rewrite Nat.add_0_r in Hc. exact Hc.
Qed.

(** ** The reader fed from a line *)

Lemma on_line_app (n1 n2 : nat) :
  forall (buffer line b1 l1 : Buffer) (ev1 ev2 : list Ev)
         (end_ : Buffer * Buffer),
    rxThread_on_line n1 buffer line = Returned (ev1, (b1, l1)) ->
    rxThread_on_line n2 b1 l1 = Returned (ev2, end_) ->
    rxThread_on_line (n1 + n2) buffer line = Returned (ev1 ++ ev2, end_).
Proof.
  induction n1 as [|n1 IH]; intros buffer line b1 l1 ev1 ev2 end_ H1 H2.
  - simpl in H1. inversion H1; subst. exact H2.
  - cbn [rxThread_on_line Nat.add] in *.
    destruct (scan_phase buffer) as [[ev [buffer1 bn]]| |];
      try discriminate.
    destruct (read_phase buffer1 bn (line_read line)) as [ev' buffer2].
    apply emit_returned_inv in H1. destruct H1 as (ev3 & a & Hr & E).
    injection E as -> <-.
    rewrite (IH _ _ _ _ _ _ _ Hr H2). simpl.
    rewrite !app_assoc. reflexivity.
Qed.

(** One iteration on a line whose read either brings a byte or adds to
    an empty buffer: the callbacks are those of the scan. *)
Lemma on_line_step (buffer line buffer1 : Buffer) (ev : list Ev) (bn : Z) :
  scan_phase buffer = Returned (ev, (buffer1, bn)) ->
  firstn (Z.to_nat (bytes_to_read bn)) line <> [] \/ buffer1 = [] ->
  rxThread_on_line 1 buffer line
  = Returned (ev, (buffer1 ++ firstn (Z.to_nat (bytes_to_read bn)) line,
                   skipn (Z.to_nat (bytes_to_read bn)) line)).
Proof.
  intros Hp Hq. cbn [rxThread_on_line]. rewrite Hp.
  unfold read_phase, line_read, serial_error_report, timeout_report.
  cbn [rr_bytes rr_ec ec_value no_error].
  set (bytes := firstn (Z.to_nat (bytes_to_read bn)) line) in *.
  assert (Hquiet : (0 <? bn) && Nat.eqb 0 (List.length bytes)
                   && negb (Nat.eqb (List.length (buffer1 ++ bytes)) 0)
                   = false).
  { destruct Hq as [Hq| ->].
    - destruct bytes; [congruence|]. simpl.
      rewrite andb_false_r. reflexivity.
    - simpl. destruct bytes; simpl; rewrite ?andb_false_r; reflexivity. }
  rewrite Hquiet. simpl. rewrite !app_nil_r. reflexivity.
Qed.

Lemma on_line_nothing_left (n : nat) :
  rxThread_on_line n [] [] = Returned ([], ([], [])).
Proof.
  induction n as [|n IH]; [reflexivity|].
  change (S n) with (1 + n)%nat.
  eapply (on_line_app 1 n [] [] [] [] [] []); [|exact IH].
  rewrite (on_line_step [] [] [] [] VESC_MIN_FRAME_SIZE eq_refl (or_intror eq_refl)).
  rewrite firstn_nil, skipn_nil. reflexivity.
Qed.

Lemma no_marker_app (a b : Buffer) :
  no_marker (a ++ b) = no_marker a && no_marker b.
Proof. apply forallb_app. Qed.

Lemma no_marker_parts (g : Buffer) (n : nat) :
  no_marker g = true ->
  no_marker (firstn n g) = true /\ no_marker (skipn n g) = true.
Proof.
  intros H. rewrite <- (firstn_skipn n g), no_marker_app in H.
  apply andb_prop in H. exact H.
Qed.

(** A pass over noise: one discard warning, everything erased. *)
Lemma scan_phase_noise (buffer : Buffer) :
  no_marker buffer = true ->
  buffer <> [] ->
  scan_phase buffer
  = Returned ([ErrorEvent (msg_discard (Z.of_nat (List.length buffer)))],
              ([], VESC_MIN_FRAME_SIZE)).
Proof.
  intros Hno Hne.
  assert (Hb : buffer = [] ++ buffer ++ []) by (rewrite app_nil_r; reflexivity).
  pose proof (scan_loop_garbage buffer [] [] buffer scan_start [] _ 1
                Hb eq_refl (refused_markers_no_marker _ _ _ Hno)) as H.
  cbn [app map] in H. rewrite emit_nil in H.
  rewrite scan_loop_end in H by reflexivity.
  assert (Hpass : scan_pass buffer
                  = Returned
                      ([ErrorEvent (msg_discard (Z.of_nat (List.length buffer)))],
                       {| final := {| iter := List.length buffer;
                                      iter_begin := 0;
                                      bytes_needed := VESC_MIN_FRAME_SIZE |};
                          buffer_after := [];
                          needed_after := VESC_MIN_FRAME_SIZE |})).
  { unfold scan_pass, scan_buffer.
    rewrite (scan_loop_more_fuel _ _ _ _ H) by lia.
    unfold finish_pass, discard_warning, distance. simpl.
    rewrite Nat.eqb_refl, skipn_all.
    assert (Hpos : (0 <? Z.of_nat (List.length buffer) - 0) = true).
    { apply Z.ltb_lt. destruct buffer; [congruence|simpl; lia]. }
    rewrite Hpos, Z.sub_0_r. reflexivity. }
  rewrite (scan_phase_pass _ _ _ Hne Hpass). reflexivity.
Qed.

(** A pass over noise followed by the beginning of a frame the factory
    wants more bytes for: the noise is discarded, the beginning kept. *)
Lemma scan_phase_noise_then_waiting (g w : Buffer) (k : Z)
  (error : string) :
  no_marker g = true ->
  starts_with_sof w = true ->
  createPacket w VESC_MIN_FRAME_SIZE = (None, k, error) ->
  0 < k ->
  scan_phase (g ++ w)
  = Returned (discard_warning (Z.of_nat (List.length g)), (w, k)).
Proof.
  intros Hno Hs Hc Hk.
  destruct w as [|b w]; [discriminate|]. simpl in Hs.
  assert (Hne : g ++ b :: w <> []) by (destruct g; discriminate).
  assert (Hb : g ++ b :: w = [] ++ g ++ b :: w) by reflexivity.
  pose proof (scan_loop_garbage g (b :: w) [] (g ++ b :: w) scan_start [] _ 1
                Hb eq_refl (refused_markers_no_marker _ _ _ Hno)) as H.
  cbn [app map] in H. rewrite emit_nil in H.
  rewrite (scan_loop_break 0 (g ++ b :: w)
             {| iter := List.length g; iter_begin := iter_begin scan_start;
                bytes_needed := bytes_needed scan_start |} b k error) in H.
  2:{ apply nth_error_length_app. }
  2:{ exact Hs. }
  2:{ cbn [iter bytes_needed scan_start]. rewrite skipn_length_app. exact Hc. }
  2:{ exact Hk. }
  assert (Hpass : scan_pass (g ++ b :: w)
                  = Returned
                      (discard_warning (Z.of_nat (List.length g)),
                       {| final := {| iter := List.length g; iter_begin := 0;
                                      bytes_needed := k |};
                          buffer_after := b :: w;
                          needed_after := k |})).
  { unfold scan_pass, scan_buffer.
    rewrite (scan_loop_more_fuel _ _ _ _ H)
      by (rewrite length_app; simpl; lia).
    unfold finish_pass, distance. cbn [iter iter_begin bytes_needed scan_start].
    rewrite skipn_length_app, Z.sub_0_r.
    destruct (Nat.eqb_spec (List.length g) (List.length (g ++ b :: w)))
      as [E|E].
    - rewrite length_app in E. simpl in E. lia.
    - reflexivity. }
  rewrite (scan_phase_pass _ _ _ Hne Hpass). reflexivity.
Qed.

Lemma asks_for_rest_spec (rest : Buffer) :
  forall w a b : Buffer,
    asks_for_rest w rest = true ->
    rest = a ++ b -> b <> [] -> w ++ a <> [] ->
    exists k error,
      createPacket (w ++ a) VESC_MIN_FRAME_SIZE = (None, k, error)
      /\ 0 < k <= Z.of_nat (List.length b).
Proof.
  induction rest as [|x rest IH]; intros w a b H Hsplit Hb Hw.
  - destruct a; [simpl in Hsplit; congruence|discriminate].
  - simpl in H. apply andb_prop in H. destruct H as [Hhere Hnext].
    destruct a as [|y a].
    + simpl in Hsplit. subst b. rewrite app_nil_r in *.
      destruct w as [|c w]; [congruence|].
      destruct (createPacket (c :: w) VESC_MIN_FRAME_SIZE)
        as [[[packet|] k] e]; [discriminate|].
      apply andb_prop in Hhere. destruct Hhere as [H1 H2].
      apply Z.ltb_lt in H1. apply Z.leb_le in H2.
      exists k, e. split; [reflexivity|]. simpl List.length in *. lia.
    + simpl in Hsplit. injection Hsplit as <- ->.
      destruct (IH (w ++ [x]) a b Hnext eq_refl Hb) as (k & e & Hc & Hk).
      { destruct w; discriminate. }
      rewrite <- app_assoc in Hc. exists k, e. auto.
Qed.

Lemma pieces_short (c n : nat) :
  (0 < c)%nat -> (n <= c)%nat ->
  pieces c n = if Nat.eqb n 0 then [] else [n].
Proof.
  intros Hc Hn. unfold pieces.
  destruct (Nat.eq_dec n c) as [->|Hne].
  - rewrite Nat.div_same, Nat.Div0.mod_same by lia. simpl.
    destruct (Nat.eqb_spec c 0); [lia|reflexivity].
  - rewrite Nat.div_small, Nat.mod_small by lia. reflexivity.
Qed.

Lemma pieces_long (c n : nat) :
  (0 < c)%nat -> (c <= n)%nat ->
  pieces c n = c :: pieces c (n - c).
Proof.
  intros Hc Hn.
  assert (Hd : Nat.div n c = S (Nat.div (n - c) c)).
  { replace n with (1 * c + (n - c))%nat at 1 by lia.
    rewrite Nat.div_add_l by lia. reflexivity. }
  assert (Hm : Nat.modulo n c = Nat.modulo (n - c) c).
  { replace n with ((n - c) + 1 * c)%nat at 1 by lia.
    apply Nat.Div0.mod_add. }
  unfold pieces. rewrite Hd, Hm. reflexivity.
Qed.

Lemma span_warnings_short (g : Buffer) :
  (0 < chunk)%nat -> (List.length g <= chunk)%nat ->
  span_warnings g = discard_warning (Z.of_nat (List.length g)).
Proof.
  intros Hc Hn. unfold span_warnings, discard_warning.
  rewrite pieces_short by assumption.
  destruct (List.length g) as [|n]; reflexivity.
Qed.

Lemma span_warnings_long (g : Buffer) :
  (0 < chunk)%nat -> (chunk <= List.length g)%nat ->
  span_warnings g
  = ErrorEvent (msg_discard (Z.of_nat chunk))
      :: span_warnings (skipn chunk g).
Proof.
  intros Hc Hn. unfold span_warnings.
  rewrite pieces_long, length_skipn by assumption. reflexivity.
Qed.

(** ** A span of noise and a frame, from the line *)

Section Awaited.

Variable f : Buffer.
Variable p : Packet.
Variable bn0 : Z.
Variable e0 : string.

Hypothesis min_positive : 0 < VESC_MIN_FRAME_SIZE.
Hypothesis f_awaited : awaited f = true.
Hypothesis f_decodes :
  createPacket f VESC_MIN_FRAME_SIZE = (Some p, bn0, e0).
Hypothesis f_size : List.length (frame p) = List.length f.

Lemma awaited_parts :
  starts_with_sof f = true
  /\ (0 < chunk <= List.length f)%nat
  /\ asks_for_rest [] f = true.
Proof.
  unfold awaited in f_awaited.
  apply andb_prop in f_awaited. destruct f_awaited as [H12 H3].
  apply andb_prop in H12. destruct H12 as [H1 H2].
  apply Z.leb_le in H2. repeat split; auto.
  - unfold chunk, bytes_to_read. lia.
  - unfold chunk, bytes_to_read. lia.
Qed.

(** From a buffer that holds noise and the beginning of the frame, or the
    whole frame and no noise, the reader reports the noise, reads the rest
    of the frame as the factory asks for it, dispatches the packet and
    reads on. *)
Lemma frame_phase (n : nat) :
  forall f' w g tail : Buffer,
    (List.length f' <= n)%nat ->
    f = w ++ f' -> w <> [] ->
    no_marker g = true ->
    g = [] \/ f' <> [] ->
    exists m,
      rxThread_on_line m (g ++ w) (f' ++ tail)
      = Returned (discard_warning (Z.of_nat (List.length g))
                    ++ [PacketEvent p],
                  (firstn chunk tail, skipn chunk tail)).
Proof.
  destruct awaited_parts as (Hsof & Hchunk & Hasks).
  induction n as [|n IH]; intros f' w g tail Hn Hf Hw Hg Hcase.
  - destruct f' as [|y f']; [|simpl in Hn; lia].
    destruct Hcase as [->|Hcase]; [|congruence].
    rewrite app_nil_r in Hf. subst w. simpl.
    exists 1%nat.
    assert (Hp : scan_phase f
                 = Returned ([PacketEvent p], ([], VESC_MIN_FRAME_SIZE))).
    { rewrite (scan_phase_pass _ _ _ Hw
                 (scan_pass_one_frame _ _ _ _ Hsof f_decodes f_size)).
      reflexivity. }
    rewrite (on_line_step _ _ _ _ _ Hp (or_intror eq_refl)). reflexivity.
  - destruct f' as [|y f'].
    { apply (IH [] w g tail); auto. simpl. lia. }
    destruct (asks_for_rest_spec f [] w (y :: f') Hasks Hf)
      as (k & e & Hc & Hk); [discriminate|exact Hw|].
    simpl app in Hc.
    assert (Hsw : starts_with_sof w = true).
    { destruct w as [|b w]; [congruence|]. subst f. exact Hsof. }
    pose proof (scan_phase_noise_then_waiting g w k e Hg Hsw Hc
                  (proj1 Hk)) as Hp.
    set (c := Z.to_nat (bytes_to_read k)).
    assert (Hcb : (1 <= c <= List.length (y :: f'))%nat)
      by (unfold c, bytes_to_read; lia).
    assert (Hfirst : firstn c ((y :: f') ++ tail) = firstn c (y :: f')).
    { rewrite firstn_app.
      replace (c - List.length (y :: f'))%nat with 0%nat by lia.
      simpl firstn at 2. apply app_nil_r. }
    assert (Hskip : skipn c ((y :: f') ++ tail) = skipn c (y :: f') ++ tail).
    { rewrite skipn_app.
      replace (c - List.length (y :: f'))%nat with 0%nat by lia.
      reflexivity. }
    assert (Hstep : rxThread_on_line 1 (g ++ w) ((y :: f') ++ tail)
                    = Returned
                        (discard_warning (Z.of_nat (List.length g)),
                         (w ++ firstn c (y :: f'),
                          skipn c (y :: f') ++ tail))).
    { rewrite (on_line_step _ _ _ _ _ Hp); fold c.
      - rewrite Hfirst, Hskip. reflexivity.
      - left. rewrite Hfirst. destruct c; [lia|discriminate]. }
    destruct (IH (skipn c (y :: f')) (w ++ firstn c (y :: f')) [] tail)
      as (m & Hm).
    + rewrite length_skipn. simpl List.length in *. lia.
    + rewrite <- app_assoc, firstn_skipn. exact Hf.
    + destruct w; [congruence|discriminate].
    + reflexivity.
    + left. reflexivity.
    + exists (1 + m)%nat.
      rewrite (on_line_app 1 m _ _ _ _ _ _ _ Hstep Hm).
      reflexivity.
Qed.

(** From the first read of a span of noise followed by the frame, the
    reader reports the noise piece by piece and then does as above. *)
Lemma span_phase (n : nat) :
  forall g tail : Buffer,
    (List.length g <= n)%nat ->
    no_marker g = true ->
    exists m,
      rxThread_on_line m (firstn chunk (g ++ f ++ tail))
        (skipn chunk (g ++ f ++ tail))
      = Returned (span_warnings g ++ [PacketEvent p],
                  (firstn chunk tail, skipn chunk tail)).
Proof.
  destruct awaited_parts as (Hsof & Hchunk & Hasks).
  induction n as [|n IH]; intros g tail Hn Hg;
    destruct (Nat.lt_ge_cases (List.length g) chunk) as [Hshort|Hlong];
    try lia.
  1,2: set (d := (chunk - List.length g)%nat);
    assert (Hd : (1 <= d <= List.length f)%nat) by (unfold d; lia);
    assert (Hfirst : firstn chunk (g ++ f ++ tail) = g ++ firstn d f)
      by (rewrite firstn_app, firstn_all2 by lia; fold d;
          rewrite firstn_app;
          replace (d - List.length f)%nat with 0%nat by lia;
          simpl firstn at 2; rewrite app_nil_r; reflexivity);
    assert (Hskip : skipn chunk (g ++ f ++ tail) = skipn d f ++ tail)
      by (rewrite skipn_app, skipn_all2 by lia; fold d;
          rewrite skipn_app;
          replace (d - List.length f)%nat with 0%nat by lia;
          reflexivity);
    rewrite Hfirst, Hskip, span_warnings_short by lia;
    apply (frame_phase (List.length (skipn d f)));
      [lia
      |symmetry; apply firstn_skipn
      |destruct f; [simpl in Hd; lia|]; destruct d; [lia|discriminate]
      |exact Hg
      |destruct g as [|x g]; [left; reflexivity|right];
       intros E; apply (f_equal (@List.length byte)) in E;
       rewrite length_skipn in E; unfold d in E; simpl in *; lia].
  assert (Hfirst : firstn chunk (g ++ f ++ tail) = firstn chunk g).
  { rewrite firstn_app.
    replace (chunk - List.length g)%nat with 0%nat by lia.
    simpl firstn at 2. apply app_nil_r. }
  assert (Hskip : skipn chunk (g ++ f ++ tail)
                  = skipn chunk g ++ f ++ tail).
  { rewrite skipn_app.
    replace (chunk - List.length g)%nat with 0%nat by lia. reflexivity. }
  destruct (no_marker_parts g chunk Hg) as [Hg1 Hg2].
  assert (Hne : firstn chunk g <> []).
  { intros E. apply (f_equal (@List.length byte)) in E.
    rewrite length_firstn in E. simpl in E. lia. }
  pose proof (scan_phase_noise _ Hg1 Hne) as Hp.
  rewrite length_firstn, Nat.min_l in Hp by lia.
  assert (Hstep : rxThread_on_line 1 (firstn chunk g)
                    (skipn chunk g ++ f ++ tail)
                  = Returned
                      ([ErrorEvent (msg_discard (Z.of_nat chunk))],
                       (firstn chunk (skipn chunk g ++ f ++ tail),
                        skipn chunk (skipn chunk g ++ f ++ tail)))).
  { rewrite (on_line_step _ _ _ _ _ Hp (or_intror eq_refl)). reflexivity. }
  destruct (IH (skipn chunk g) tail) as (m & Hm).
  - rewrite length_skipn. lia.
  - exact Hg2.
  - exists (1 + m)%nat. rewrite Hfirst, Hskip.
    rewrite (on_line_app 1 m _ _ _ _ _ _ _ Hstep Hm).
    rewrite (span_warnings_long g) by lia. reflexivity.
Qed.

End Awaited.

End ReaderOnStream.

Section StreamClaims.

Context {codec : Codec}.

Local Abbreviation Ev := (Event Packet).

Lemma span_warnings_not_empty (g : Buffer) :
  (0 < chunk)%nat -> g <> [] -> span_warnings g <> [].
Proof.
  intros Hc Hg.
  assert (Hl : (0 < List.length g)%nat)
    by (destruct g; [congruence|simpl; lia]).
  destruct (Nat.le_gt_cases chunk (List.length g)) as [Hlong|Hshort].
  - rewrite span_warnings_long by assumption. discriminate.
  - unfold span_warnings. rewrite pieces_short by lia.
    destruct (List.length g); [lia|discriminate].
Qed.

(** C2, as amended.  The line carries a span of noise, a valid frame, a
    second span of noise and a second valid frame, and answers every read
    with the bytes asked for; no byte of the two spans is a start-of-frame
    value, and the two frames are frames the factory waits for.  Started on
    an empty buffer, the reader then comes, after some number of
    iterations and for every number of further ones, to an empty buffer and
    an empty line, having dispatched exactly the two packets, in the order
    of the bytes, and having called the error handler only with warnings of
    discarded bytes: those of the first span before the first packet, those
    of the second span between the two packets.  A span is reported in the
    pieces in which the reader meets it, at most
    [min (VESC_MIN_FRAME_SIZE, 4096)] bytes each, the counts adding up to
    its length: one warning that gives the length of the span when the span
    is not empty and not longer than that, no warning when it is empty, and
    two warnings or more when it is longer. *)
Theorem resync_on_a_byte_stream (g1 f1 g2 f2 : Buffer) (p1 p2 : Packet)
  (bn1 bn2 : Z) (e1 e2 : string) :
  0 < VESC_MIN_FRAME_SIZE ->
  no_marker g1 = true ->
  awaited f1 = true ->
  createPacket f1 VESC_MIN_FRAME_SIZE = (Some p1, bn1, e1) ->
  List.length (frame p1) = List.length f1 ->
  no_marker g2 = true ->
  awaited f2 = true ->
  createPacket f2 VESC_MIN_FRAME_SIZE = (Some p2, bn2, e2) ->
  List.length (frame p2) = List.length f2 ->
  (exists n,
     forall k,
       rxThread_on_line (n + k) [] (g1 ++ f1 ++ g2 ++ f2)
       = Returned (span_warnings g1 ++ [PacketEvent p1]
                     ++ span_warnings g2 ++ [PacketEvent p2],
                   ([], [])))
  /\ (forall g : Buffer,
        span_warnings g
        = map (fun n => ErrorEvent (msg_discard (Z.of_nat n)))
            (pieces chunk (List.length g))
        /\ list_sum (pieces chunk (List.length g)) = List.length g
        /\ Forall (fun n => (0 < n <= chunk)%nat)
             (pieces chunk (List.length g)))
  /\ (forall g : Buffer,
        (List.length g <= chunk)%nat ->
        span_warnings g = discard_warning (Z.of_nat (List.length g)))
  /\ (forall g : Buffer,
        (chunk < List.length g)%nat ->
        (2 <= List.length (span_warnings g))%nat).
Proof.
  intros Hmin Hg1 Ha1 Hc1 Hl1 Hg2 Ha2 Hc2 Hl2.
  assert (Hchunk : (0 < chunk)%nat)
    by (unfold chunk, bytes_to_read; lia).
  split; [|split; [|split]].
  - destruct (span_phase f1 p1 bn1 e1 Hmin Ha1 Hc1 Hl1
                (List.length g1) g1 (g2 ++ f2) (Nat.le_refl _) Hg1)
      as (m1 & H1).
    destruct (span_phase f2 p2 bn2 e2 Hmin Ha2 Hc2 Hl2
                (List.length g2) g2 [] (Nat.le_refl _) Hg2)
      as (m2 & H2).
    rewrite app_nil_r in H2. cbn [firstn skipn] in H2.
    rewrite firstn_nil, skipn_nil in H2.
    assert (H0 : rxThread_on_line 1 [] (g1 ++ f1 ++ g2 ++ f2)
                 = Returned
                     ([], (firstn chunk (g1 ++ f1 ++ g2 ++ f2),
                           skipn chunk (g1 ++ f1 ++ g2 ++ f2)))).
    { rewrite (on_line_step [] _ [] [] VESC_MIN_FRAME_SIZE eq_refl
                 (or_intror eq_refl)).
      reflexivity. }
    exists (1 + (m1 + m2))%nat. intros k.
    pose proof (on_line_app _ _ _ _ _ _ _ _ _ H1 H2) as H12.
    pose proof (on_line_app _ _ _ _ _ _ _ _ _ H0 H12) as H012.
    pose proof (on_line_app _ k _ _ _ _ _ _ _ H012
                  (on_line_nothing_left k)) as H.
    rewrite H. cbn [app]. rewrite app_nil_r, <- app_assoc. reflexivity.
  - intros g. split; [reflexivity|].
    generalize (List.length g). intros n.
    induction n as [n IH] using lt_wf_ind.
    destruct (Nat.le_gt_cases chunk n) as [Hlong|Hshort].
    + rewrite pieces_long by assumption. cbn [list_sum fold_right].
      destruct (IH (n - chunk)%nat) as [Hs Hf]; [lia|].
      change (fold_right Nat.add 0%nat (pieces chunk (n - chunk)))
        with (list_sum (pieces chunk (n - chunk))).
      rewrite Hs. split; [lia|].
      constructor; [lia|exact Hf].
    + rewrite pieces_short by lia.
      destruct n as [|n]; cbn [Nat.eqb list_sum fold_right].
      * split; [reflexivity|constructor].
      * split; [lia|]. constructor; [lia|constructor].
  - intros g Hg. apply span_warnings_short; assumption.
  - intros g Hg. rewrite span_warnings_long by lia. cbn [List.length].
    assert (Hne : skipn chunk g <> []).
    { intros E. apply (f_equal (@List.length byte)) in E.
      rewrite length_skipn in E. simpl in E. lia. }
    pose proof (span_warnings_not_empty _ Hchunk Hne) as Hw.
    destruct (span_warnings (skipn chunk g)); [congruence|simpl; lia].
Qed.

(** C6.  When the buffer holds two valid frames one behind the other, one
    iteration of the reader dispatches both packets, the first frame's
    before the second's, and they are the only packets of the iteration;
    the buffer is empty before the read.  Over a run of any number of
    iterations, from any buffer and with any reads, the callbacks of the
    earlier iterations come before those of the later ones, and the
    packets handed to the packet handler lie one behind the other in the
    bytes the reader was given (its buffer, then what the reads brought):
    each was made at a start-of-frame byte of that stream from the bytes
    that follow, the next one at or behind the end of its frame, all of
    them inside the part of the stream the reader has erased. *)
Theorem packets_follow_the_stream (f1 f2 : Buffer) (p1 p2 : Packet)
  (bn1 bn2 : Z) (e1 e2 : string) (read : Z -> ReadResult) :
  starts_with_sof f1 = true ->
  createPacket (f1 ++ f2) VESC_MIN_FRAME_SIZE = (Some p1, bn1, e1) ->
  List.length (frame p1) = List.length f1 ->
  starts_with_sof f2 = true ->
  createPacket f2 bn1 = (Some p2, bn2, e2) ->
  List.length (frame p2) = List.length f2 ->
  let answer := read (bytes_to_read VESC_MIN_FRAME_SIZE) in
  let trace := [PacketEvent p1; PacketEvent p2]
                 ++ serial_error_report (rr_ec answer) in
  scan_phase (f1 ++ f2)
  = Returned ([PacketEvent p1; PacketEvent p2], ([], VESC_MIN_FRAME_SIZE))
  /\ rx_iteration (f1 ++ f2) read = Returned (trace, rr_bytes answer)
  /\ packets_of trace = [p1; p2]
  /\ (forall (buffer b1 b2 : Buffer) (reads1 reads2 : list (Z -> ReadResult))
             (t1 t2 : list Ev),
        rxThread buffer reads1 = Returned (t1, b1) ->
        rxThread b1 reads2 = Returned (t2, b2) ->
        rxThread buffer (reads1 ++ reads2) = Returned (t1 ++ t2, b2)
        /\ packets_of (t1 ++ t2) = packets_of t1 ++ packets_of t2)
  /\ (forall (buffer buffer' : Buffer) (reads : list (Z -> ReadResult))
             (ev : list Ev),
        rxThread buffer reads = Returned (ev, buffer') ->
        exists erased : Buffer,
          buffer ++ inflow buffer reads = erased ++ buffer'
          /\ decoded_in_order (buffer ++ inflow buffer reads)
               0 (packets_of ev) (List.length erased)).
Proof.
  intros Hs1 Hc1 Hl1 Hs2 Hc2 Hl2 answer trace.
  assert (Hne : f1 ++ f2 <> []) by (destruct f1; [discriminate|discriminate]).
  assert (Hphase : scan_phase (f1 ++ f2)
                   = Returned ([PacketEvent p1; PacketEvent p2],
                               ([], VESC_MIN_FRAME_SIZE))).
  { pose proof (scan_pass_span_frame_span_frame [] f1 [] f2 p1 p2 [] []
                  VESC_MIN_FRAME_SIZE bn1 bn1 bn2 e1 e2
                  eq_refl Hs1 Hc1 Hl1 eq_refl Hs2 Hc2 Hl2) as Hpass.
    apply (scan_phase_pass _ _ _ Hne) in Hpass. exact Hpass. }
  split; [exact Hphase|]. split; [|split; [|split]].
  - unfold rx_iteration. rewrite Hphase, read_phase_empty. reflexivity.
  - unfold trace, serial_error_report.
    destruct (0 <? ec_value (rr_ec answer)); reflexivity.
  - intros buffer b1 b2 reads1 reads2 t1 t2 H1 H2. split.
    + eapply rxThread_app; eassumption.
    + apply packets_of_app.
  - intros buffer buffer' reads ev H.
    destruct (rxThread_in_order reads buffer buffer' [] ev H)
      as (erased & He & _ & Hd).
    exists erased. split; assumption.
Qed.

End StreamClaims.

(** C2, as amended, on five bytes of noise, a frame, one byte of noise and
    a second frame: the first span is reported in two pieces, the second
    in one. *)
Lemma resync_on_a_byte_stream_witness :
  (exists n,
     forall k,
       @rxThread_on_line Sample.codec (n + k) []
         (Sample.noise ++ Sample.frame_a ++ [x0a] ++ Sample.frame_b)
       = Returned
           (@span_warnings Sample.codec Sample.noise
              ++ [PacketEvent Sample.frame_a]
              ++ @span_warnings Sample.codec [x0a]
              ++ [PacketEvent Sample.frame_b],
            ([], [])))
  /\ (forall g : Buffer,
        @span_warnings Sample.codec g
        = map (fun n => ErrorEvent (msg_discard (Z.of_nat n)))
            (pieces (@chunk Sample.codec) (List.length g))
        /\ list_sum (pieces (@chunk Sample.codec) (List.length g))
           = List.length g
        /\ Forall (fun n => (0 < n <= @chunk Sample.codec)%nat)
             (pieces (@chunk Sample.codec) (List.length g)))
  /\ (forall g : Buffer,
        (List.length g <= @chunk Sample.codec)%nat ->
        @span_warnings Sample.codec g
        = @discard_warning Sample.codec
            (Z.of_nat (List.length g)))
  /\ (forall g : Buffer,
        (@chunk Sample.codec < List.length g)%nat ->
        (2 <= List.length (@span_warnings Sample.codec g))%nat).
Proof.
  exact (@resync_on_a_byte_stream Sample.codec
           Sample.noise Sample.frame_a [x0a] Sample.frame_b
           Sample.frame_a Sample.frame_b 0 0 "" ""
           eq_refl eq_refl eq_refl eq_refl eq_refl
           eq_refl eq_refl eq_refl eq_refl).
Defined.

(** The warnings of that run, written out. *)
Example sample_span_warnings :
  @span_warnings Sample.codec Sample.noise
  = [ErrorEvent "Out-of-sync with VESC, discarding 4 bytes.";
     ErrorEvent "Out-of-sync with VESC, discarding 1 bytes."]
  /\ @span_warnings Sample.codec [x0a]
     = [ErrorEvent "Out-of-sync with VESC, discarding 1 bytes."].
Proof. split; reflexivity. Qed.

(** One byte of noise before each frame: one warning for each span, each
    with the length of its span. *)
Example sample_short_spans :
  @rxThread_on_line Sample.codec 5 []
    ([x09] ++ Sample.frame_a ++ [x0a] ++ Sample.frame_b)
  = Returned
      ([ErrorEvent "Out-of-sync with VESC, discarding 1 bytes.";
        PacketEvent Sample.frame_a;
        ErrorEvent "Out-of-sync with VESC, discarding 1 bytes.";
        PacketEvent Sample.frame_b],
       ([], [])).
Proof. reflexivity. Qed.

(** C6 on two frames and a read that brings nothing. *)
Lemma packets_follow_the_stream_witness :
  @scan_phase Sample.codec (Sample.frame_a ++ Sample.frame_b)
  = Returned ([PacketEvent Sample.frame_a; PacketEvent Sample.frame_b],
              ([], 4))
  /\ @rx_iteration Sample.codec (Sample.frame_a ++ Sample.frame_b)
       (Sample.brings [])
     = Returned ([PacketEvent Sample.frame_a; PacketEvent Sample.frame_b],
                 [])
  /\ @packets_of (@Packet Sample.codec)
       [PacketEvent Sample.frame_a; PacketEvent Sample.frame_b]
     = [Sample.frame_a; Sample.frame_b]
  /\ (forall (buffer b1 b2 : Buffer) (reads1 reads2 : list (Z -> ReadResult))
             (t1 t2 : list (Event (@Packet Sample.codec))),
        @rxThread Sample.codec buffer reads1 = Returned (t1, b1) ->
        @rxThread Sample.codec b1 reads2 = Returned (t2, b2) ->
        @rxThread Sample.codec buffer (reads1 ++ reads2)
        = Returned (t1 ++ t2, b2)
        /\ packets_of (t1 ++ t2) = packets_of t1 ++ packets_of t2)
  /\ (forall (buffer buffer' : Buffer) (reads : list (Z -> ReadResult))
             (ev : list (Event (@Packet Sample.codec))),
        @rxThread Sample.codec buffer reads = Returned (ev, buffer') ->
        exists erased : Buffer,
          buffer ++ @inflow Sample.codec buffer reads = erased ++ buffer'
          /\ @decoded_in_order Sample.codec
               (buffer ++ @inflow Sample.codec buffer reads)
               0 (packets_of ev) (List.length erased)).
Proof.
  exact (@packets_follow_the_stream Sample.codec
           Sample.frame_a Sample.frame_b Sample.frame_a Sample.frame_b
           0 0 "" "" (Sample.brings [])
           eq_refl eq_refl eq_refl eq_refl eq_refl eq_refl).
Defined.

(** * Further concrete runs *)

Lemma sample_bytes_needed_is_output : @bytes_needed_is_output Sample.codec.
Proof. intros window bn1 bn2. reflexivity. Qed.

Lemma sample_nothing_idle : idle Sample.nothing.
Proof. intros n. split; [reflexivity|]. simpl. lia. Qed.

(** X1 on a byte of noise and the beginning of a frame. *)
Lemma leftover_is_empty_or_candidate_witness :
  @scan_pass Sample.codec [x09; x02; x01]
  = Returned
      ([ErrorEvent "Out-of-sync with VESC, discarding 1 bytes."],
       {| final := {| iter := 1; iter_begin := 0; bytes_needed := 2 |};
          buffer_after := [x02; x01]; needed_after := 2 |})
  /\ (([x02; x01] = [] /\ 2 = @VESC_MIN_FRAME_SIZE Sample.codec)
      \/ (@starts_with_sof Sample.codec [x02; x01] = true
          /\ 2 = 2 /\ 0 < 2)).
Proof.
  split; [reflexivity|].
  exact (@leftover_is_empty_or_candidate Sample.codec [x09; x02; x01]
           [ErrorEvent "Out-of-sync with VESC, discarding 1 bytes."]
           {| final := {| iter := 1; iter_begin := 0; bytes_needed := 2 |};
              buffer_after := [x02; x01]; needed_after := 2 |}
           eq_refl).
Defined.

(** X2 on the same buffer. *)
Lemma second_pass_is_silent_witness :
  @scan_phase Sample.codec [x02; x01] = Returned ([], ([x02; x01], 2)).
Proof.
  exact (@second_pass_is_silent Sample.codec [x09; x02; x01]
           [ErrorEvent "Out-of-sync with VESC, discarding 1 bytes."]
           {| final := {| iter := 1; iter_begin := 0; bytes_needed := 2 |};
              buffer_after := [x02; x01]; needed_after := 2 |}
           sample_bytes_needed_is_output eq_refl).
Defined.

(** X3 on a false start followed by a frame. *)
Lemma dispatched_packets_come_from_factory_witness :
  exists i b bn bn' error,
    nth_error (Sample.false_start ++ Sample.frame_a) i = Some b
    /\ @is_sof Sample.codec b = true
    /\ Sample.createPacket (skipn i (Sample.false_start ++ Sample.frame_a))
         bn
       = (Some Sample.frame_a, bn', error)
    /\ (i + 4 <= 8)%nat.
Proof.
  exact (@dispatched_packets_come_from_factory Sample.codec
           (Sample.false_start ++ Sample.frame_a)
           [ErrorEvent "Invalid end-of-frame character";
            ErrorEvent
              "Out-of-sync with VESC, unknown data leading valid frame. Discarding 4 bytes.";
            PacketEvent Sample.frame_a]
           {| final := {| iter := 8; iter_begin := 8; bytes_needed := 0 |};
              buffer_after := []; needed_after := 4 |}
           Sample.frame_a eq_refl (or_introl eq_refl)).
Defined.

(** X4 on noise, a frame and the beginning of a frame. *)
Lemma dispatched_and_kept_fit_the_buffer_witness :
  @scan_pass Sample.codec ([x09] ++ Sample.frame_a ++ [x02; x01])
  = Returned
      ([ErrorEvent
          "Out-of-sync with VESC, unknown data leading valid frame. Discarding 1 bytes.";
        PacketEvent Sample.frame_a],
       {| final := {| iter := 5; iter_begin := 5; bytes_needed := 2 |};
          buffer_after := [x02; x01]; needed_after := 2 |})
  /\ (@total_frame_bytes Sample.codec
        [ErrorEvent
           "Out-of-sync with VESC, unknown data leading valid frame. Discarding 1 bytes.";
         PacketEvent Sample.frame_a]
      + List.length [x02; x01]
      <= List.length ([x09] ++ Sample.frame_a ++ [x02; x01]))%nat.
Proof.
  split; [reflexivity|].
  exact (@dispatched_and_kept_fit_the_buffer Sample.codec
           ([x09] ++ Sample.frame_a ++ [x02; x01])
           [ErrorEvent
              "Out-of-sync with VESC, unknown data leading valid frame. Discarding 1 bytes.";
            PacketEvent Sample.frame_a]
           {| final := {| iter := 5; iter_begin := 5; bytes_needed := 2 |};
              buffer_after := [x02; x01]; needed_after := 2 |}
           eq_refl).
Defined.

(** X5 on five bytes of noise. *)
Lemma pass_over_noise_discards_all_witness :
  @scan_pass Sample.codec Sample.noise
  = Returned
      ([ErrorEvent "Out-of-sync with VESC, discarding 5 bytes."],
       {| final := {| iter := 5; iter_begin := 0; bytes_needed := 4 |};
          buffer_after := []; needed_after := 4 |}).
Proof.
  refine (@pass_over_noise_discards_all Sample.codec Sample.noise
            eq_refl _).
  discriminate.
Defined.

(** X6 on a buffer that ends inside a frame. *)
Lemma read_request_is_within_bufferRx_witness :
  exists ev buffer' bn,
    @scan_phase Sample.codec (Sample.noise ++ [x02; x05; x01])
    = Returned (ev, (buffer', bn))
    /\ 1 <= bytes_to_read bn <= 4096.
Proof.
  exact (@read_request_is_within_bufferRx Sample.codec
           (Sample.noise ++ [x02; x05; x01]) sample_frames_fit eq_refl).
Defined.

(** X7 on reads that bring noise, a frame in two parts, and nothing. *)
Lemma rxThread_survives_any_input_witness :
  exists ev buffer',
    @rxThread Sample.codec [x03]
      [Sample.brings Sample.noise; Sample.brings [x02; x01];
       Sample.brings [x07; x03]; Sample.nothing]
    = Returned (ev, buffer').
Proof.
  exact (@rxThread_survives_any_input Sample.codec
           [Sample.brings Sample.noise; Sample.brings [x02; x01];
            Sample.brings [x07; x03]; Sample.nothing]
           sample_frames_fit [x03]).
Defined.

(** X8 on three silent reads. *)
Lemma idle_line_is_silent_witness :
  @rxThread Sample.codec []
    [Sample.nothing; Sample.nothing; Sample.nothing]
  = Returned ([], []).
Proof.
  exact (@idle_line_is_silent Sample.codec
           [Sample.nothing; Sample.nothing; Sample.nothing]
           (Forall_cons _ sample_nothing_idle
              (Forall_cons _ sample_nothing_idle
                 (Forall_cons _ sample_nothing_idle (Forall_nil _))))).
Defined.

(** X9 on the first half of a frame and two silent reads. *)
Lemma stalled_frame_warns_every_iteration_witness :
  @rxThread Sample.codec [x02; x01] [Sample.nothing; Sample.nothing]
  = Returned
      ([ErrorEvent
          "Possibly out-of-sync with VESC, read timout in the middle of a frame.";
        ErrorEvent
          "Possibly out-of-sync with VESC, read timout in the middle of a frame."],
       [x02; x01]).
Proof.
  exact (@stalled_frame_warns_every_iteration Sample.codec [x02; x01] 2
           "Buffer does not contain a complete frame"
           [Sample.nothing; Sample.nothing]
           eq_refl eq_refl eq_refl
           (Forall_cons _ sample_nothing_idle
              (Forall_cons _ sample_nothing_idle (Forall_nil _)))).
Defined.

(** X11 on a device that opens and refuses the baud rate. *)
Lemma connect_failure_cases_witness :
  rx_thread_
    (snd (@connect Sample.codec Sample.text Sample.stubborn "/dev/ttyACM0"
            Sample.fresh))
  = rx_thread_ Sample.fresh
  /\ rx_thread_run_
       (snd (@connect Sample.codec Sample.text Sample.stubborn
               "/dev/ttyACM0" Sample.fresh))
     = rx_thread_run_ Sample.fresh
  /\ ((isConnected Sample.fresh = true
       /\ SerialException
            "Failed to open the serial port /dev/ttyACM0 to the VESC. set_option: Inappropriate ioctl for device"
          = SerialException "Already connected to serial port."
       /\ snd (@connect Sample.codec Sample.text Sample.stubborn
                 "/dev/ttyACM0" Sample.fresh)
          = Sample.fresh)
      \/ (isConnected Sample.fresh = false
          /\ exists w,
               SerialException
                 "Failed to open the serial port /dev/ttyACM0 to the VESC. set_option: Inappropriate ioctl for device"
               = SerialException
                   (c_str ("Failed to open the serial port "
                             ++ "/dev/ttyACM0" ++ " to the VESC. " ++ w))
               /\ ((@open_throws Sample.stubborn "/dev/ttyACM0" = Some w
                    /\ isConnected
                         (snd (@connect Sample.codec Sample.text
                                 Sample.stubborn "/dev/ttyACM0"
                                 Sample.fresh))
                       = false)
                   \/ (@open_throws Sample.stubborn "/dev/ttyACM0" = None
                       /\ Exists
                            (fun o =>
                               @set_option_throws Sample.stubborn o = Some w)
                            [baud_rate 115200; flow_control flow_none;
                             parity parity_none; stop_bits stop_one]
                       /\ isConnected
                            (snd (@connect Sample.codec Sample.text
                                    Sample.stubborn "/dev/ttyACM0"
                                    Sample.fresh))
                          = true)))).
Proof.
  exact (@connect_failure_cases Sample.codec Sample.text Sample.stubborn
           "/dev/ttyACM0" Sample.fresh
           (SerialException
              "Failed to open the serial port /dev/ttyACM0 to the VESC. set_option: Inappropriate ioctl for device")
           eq_refl).
Defined.

(** X12 on the same device: the second [connect] is refused. *)
Lemma connect_refused_once_port_is_open_witness :
  @connect Sample.codec Sample.text Sample.stubborn "/dev/ttyACM1"
    (snd (@connect Sample.codec Sample.text Sample.stubborn "/dev/ttyACM0"
            Sample.fresh))
  = (Throw (SerialException "Already connected to serial port."),
     snd (@connect Sample.codec Sample.text Sample.stubborn "/dev/ttyACM0"
            Sample.fresh)).
Proof.
  exact (@connect_refused_once_port_is_open Sample.codec Sample.text
           Sample.stubborn "/dev/ttyACM0" "/dev/ttyACM1" Sample.fresh
           eq_refl eq_refl).
Defined.

(** X15 on a device that takes no byte of a write. *)
Lemma disconnect_stops_at_failed_wake_up_witness :
  (exists description,
     @disconnect Sample.codec Sample.text Sample.mute Sample.commands
       Sample.closes Sample.threads Sample.connected Sample.farewell
     = Returned
         (Throw (SerialException description),
          {| rx_thread_ := Some RxThread; rx_thread_run_ := false;
             serial_port_ :=
               {| is_open := true;
                  options := options (serial_port_ Sample.connected);
                  writes := [Sample.request x00] |};
             handled := [] |}))
  /\ isConnected
       {| rx_thread_ := Some RxThread; rx_thread_run_ := false;
          serial_port_ :=
            {| is_open := true;
               options := options (serial_port_ Sample.connected);
               writes := [Sample.request x00] |};
          handled := @nil (Event (@Packet Sample.codec)) |}
     = true.
Proof.
  refine (@disconnect_stops_at_failed_wake_up Sample.codec Sample.text
            Sample.mute Sample.commands Sample.closes Sample.threads
            Sample.connected Sample.farewell eq_refl _).
  discriminate.
Defined.

(** X16 on a device on which every call succeeds, the reader dispatching
    one last packet on its way out. *)
Lemma disconnect_closes_the_port_witness :
  @disconnect Sample.codec Sample.text Sample.obliging Sample.commands
    Sample.closes Sample.threads Sample.connected Sample.farewell
  = Returned
      (Ok tt,
       {| rx_thread_ := Some JoinedThread; rx_thread_run_ := false;
          serial_port_ :=
            {| is_open := false; options := [];
               writes := [Sample.request x00] |};
          handled := Sample.farewell |})
  /\ isConnected
       {| rx_thread_ := Some JoinedThread; rx_thread_run_ := false;
          serial_port_ :=
            {| is_open := false; options := [];
               writes := [Sample.request x00] |};
          handled := Sample.farewell |}
     = false
  /\ @disconnect Sample.codec Sample.text Sample.obliging Sample.commands
       Sample.closes Sample.threads
       {| rx_thread_ := Some JoinedThread; rx_thread_run_ := false;
          serial_port_ :=
            {| is_open := false; options := [];
               writes := [Sample.request x00] |};
          handled := Sample.farewell |}
       []
     = Returned
         (Ok tt,
          {| rx_thread_ := Some JoinedThread; rx_thread_run_ := false;
             serial_port_ :=
               {| is_open := false; options := [];
                  writes := [Sample.request x00] |};
             handled := Sample.farewell |}).
Proof.
  exact (@disconnect_closes_the_port Sample.codec Sample.text
           Sample.obliging Sample.commands Sample.closes Sample.threads
           Sample.connected Sample.farewell [] eq_refl eq_refl eq_refl).
Defined.

(** X17 on the same device, from a fresh interface. *)
Lemma connect_disconnect_connect_witness :
  exists c d,
    @connect Sample.codec Sample.text Sample.obliging "/dev/ttyACM0"
      Sample.fresh
    = (Ok tt, c)
    /\ @disconnect Sample.codec Sample.text Sample.obliging Sample.commands
         Sample.closes Sample.threads c []
       = Returned (Ok tt, d)
    /\ isConnected d = false
    /\ rx_thread_run_ d = false
    /\ writes (serial_port_ d) = [] ++ [Sample.request x00]
    /\ fst (@connect Sample.codec Sample.text Sample.obliging
              "/dev/ttyACM0" d)
       = Ok tt.
Proof.
  exact (@connect_disconnect_connect Sample.codec Sample.text
           Sample.obliging Sample.commands Sample.closes Sample.threads
           "/dev/ttyACM0" Sample.fresh [] eq_refl eq_refl
           (Forall_cons _ eq_refl
              (Forall_cons _ eq_refl
                 (Forall_cons _ eq_refl
                    (Forall_cons _ eq_refl (Forall_nil _)))))
           eq_refl eq_refl).
Defined.

(** X18 on a device that opens, refuses every option and takes writes. *)
Lemma disconnect_after_failed_connect_is_undefined_witness :
  @disconnect Sample.codec Sample.text Sample.unconfigurable
    Sample.commands Sample.closes Sample.threads
    (snd (@connect Sample.codec Sample.text Sample.unconfigurable
            "/dev/ttyACM0" Sample.fresh))
    []
  = Undefined.
Proof.
  exact (@disconnect_after_failed_connect_is_undefined Sample.codec
           Sample.text Sample.unconfigurable Sample.commands Sample.closes
           Sample.threads "/dev/ttyACM0" Sample.fresh
           (SerialException
              "Failed to open the serial port /dev/ttyACM0 to the VESC. set_option: Invalid argument")
           [] eq_refl eq_refl eq_refl eq_refl eq_refl).
Defined.

(** X19 on a device on which every call succeeds. *)
Lemma constructor_connects_iff_port_named_witness :
  @VescInterface Sample.codec Sample.text Sample.obliging "" false
  = (Ok tt, @new_Impl Sample.codec false)
  /\ (isConnected Sample.connected = true <-> "/dev/ttyACM0" <> "")
  /\ (isConnected Sample.connected = true ->
      rx_thread_ Sample.connected = Some RxThread
      /\ rx_thread_run_ Sample.connected = true).
Proof.
  exact (@constructor_connects_iff_port_named Sample.codec Sample.text
           Sample.obliging "/dev/ttyACM0" false Sample.connected eq_refl).
Defined.

(** X20 on a byte of noise and half a frame, the read bringing the other
    half with an error code. *)
Lemma iteration_keeps_byte_order_witness :
  exists (erased : nat) (bn : Z),
    (erased <= 3)%nat
    /\ [x02; x01; x07; x03]
       = skipn erased [x09; x02; x01]
           ++ rr_bytes
                ({| rr_bytes := [x07; x03];
                    rr_ec := {| ec_value := 5; ec_failed := true;
                                ec_category_name := "system" |} |}).
Proof.
  exact (@iteration_keeps_byte_order Sample.codec [x09; x02; x01]
           [x02; x01; x07; x03]
           [ErrorEvent "Out-of-sync with VESC, discarding 1 bytes.";
            ErrorEvent
              (msg_serial {| ec_value := 5; ec_failed := true;
                             ec_category_name := "system" |})]
           (fun _ =>
              {| rr_bytes := [x07; x03];
                 rr_ec := {| ec_value := 5; ec_failed := true;
                             ec_category_name := "system" |} |})
           eq_refl).
Defined.

(** A port name with a NUL in it: the description thrown by [connect] ends
    where the name has its NUL. *)
Example connect_port_name_with_nul :
  fst (@connect Sample.codec Sample.text Sample.unplugged
         (String "a" (String "000" "b")) Sample.fresh)
  = Throw (SerialException "Failed to open the serial port a").
Proof. reflexivity. Qed.

(** After a [connect], a [disconnect] and a [connect] that fails at the
    first option, the port is open and the pointer holds the thread joined
    before: the next [disconnect] sends its request, throws at [join()] and
    leaves the port open. *)
Example disconnect_after_refused_reconnect :
  exists c d e,
    @connect Sample.codec Sample.text Sample.obliging "/dev/ttyACM0"
      Sample.fresh
    = (Ok tt, c)
    /\ @disconnect Sample.codec Sample.text Sample.obliging Sample.commands
         Sample.closes Sample.threads c []
       = Returned (Ok tt, d)
    /\ @connect Sample.codec Sample.text Sample.unconfigurable
         "/dev/ttyACM0" d
       = (Throw (SerialException
                   "Failed to open the serial port /dev/ttyACM0 to the VESC. set_option: Invalid argument"),
          e)
    /\ isConnected e = true
    /\ rx_thread_ e = Some JoinedThread
    /\ exists e',
         @disconnect Sample.codec Sample.text Sample.unconfigurable
           Sample.commands Sample.closes Sample.threads e []
         = Returned (Throw (std_exception "Invalid argument"), e')
         /\ isConnected e' = true.
Proof. repeat eexists. Qed.
